(** * openpi-comet: the zql batch runner and the log aggregator

    A shallow embedding of [scripts/run_zql_batch.py] (the Trial Runner) and
    [scripts/parse_zql_results.py] (the Result Aggregator), with the
    properties their specification states about them.

    Modelling conventions.
    - Python [int] is [Z].  Python [str] is [string]; the text of log files
      and file names is ASCII, so [\d] is [0-9] and [\s] is the ASCII white
      space of [str.isspace].
    - Python [float] is modelled by the exact rational it approximates ([Q]);
      a [Binary64] module re-computes the rollup rates in IEEE double
      precision for the concrete figures the specification quotes.
    - The record dictionaries built by [parse_log_file] have five fixed keys
      and are modelled by the record [LogResult].
    - Exceptions are values of [exn]; a computation that may raise returns a
      [result].  [sys.exit] and the two output streams are explicit. *)

From Stdlib Require Import ZArith QArith Ascii String DecimalString DecimalZ DecimalPos.
From Stdlib Require Import SpecFloat.
From stdpp Require Import base option list sorting gmap strings.

Local Open Scope Z_scope.
Local Open Scope string_scope.

(** ** Python primitives *)

Module Py.

(** Exceptions the two scripts can meet.  [exn_str] is [str(e)]. *)
Inductive exn : Type :=
| OSError (msg : string)
| UnicodeDecodeError (msg : string)
| ValueError (msg : string).

Definition exn_str (e : exn) : string :=
  match e with
  | OSError msg | UnicodeDecodeError msg | ValueError msg => msg
  end.

(** A computation that returns a value or raises. *)
Inductive result (A : Type) : Type :=
| Ok (a : A)
| Raise (e : exn).
Arguments Ok {A} a.
Arguments Raise {A} e.

#[export] Instance result_ret : MRet result := fun A a => Ok a.
#[export] Instance result_bind : MBind result := fun A B f m =>
  match m with
  | Ok a => f a
  | Raise e => Raise e
  end.

(** [str(n)] of an integer. *)
Definition str (n : Z) : string := NilZero.string_of_int (Z.to_int n).

(** The newline character. *)
Definition nl : string := String (ascii_of_nat 10) "".

(** [repr(s)] of a string without quotes or escapes. *)
Definition repr (s : string) : string := "'" +:+ s +:+ "'".

Definition is_digit (a : ascii) : bool :=
  (Ascii.leb "0" a && Ascii.leb a "9")%bool.

(** White space of [\s]: tab, line feed, vertical tab, form feed, carriage
    return, the four separators 0x1c..0x1f and the space. *)
Definition is_space (a : ascii) : bool :=
  let n := nat_of_ascii a in
  ((9 <=? n)%nat && (n <=? 13)%nat || (28 <=? n)%nat && (n <=? 32)%nat)%bool.

Fixpoint all_chars (c : ascii -> bool) (s : string) : bool :=
  match s with
  | "" => true
  | String a s' => c a && all_chars c s'
  end.

(** [int(s)] for a decimal digit string (what [\d+] captures); any other
    text raises [ValueError].  The interpreter's configurable limit on the
    number of digits is not modelled. *)
Definition int_ (s : string) : result Z :=
  match NilZero.uint_of_string s with
  | Some d => Ok (Z.of_uint d)
  | None => Raise (ValueError ("invalid literal for int() with base 10: " +:+ repr s))
  end.

(** Splits [s] at its first full stop. *)
Fixpoint split_dot (s : string) : string * option string :=
  match s with
  | "" => ("", None)
  | String a s' =>
      if Ascii.eqb a "." then ("", Some s')
      else let '(ip, fp) := split_dot s' in (String a ip, fp)
  end.

(** The value of a digit string, the empty one counting for zero. *)
Definition digits_value (s : string) : Z :=
  match NilEmpty.uint_of_string s with
  | Some d => Z.of_uint d
  | None => 0
  end.

(** [float(s)] for a text of digits and full stops (what [[\d.]+]
    captures): digits with at most one full stop and at least one digit;
    anything else raises [ValueError]. *)
Definition float_ (s : string) : result Q :=
  let '(ip, fp) := split_dot s in
  let fp' := default "" fp in
  if (all_chars is_digit ip && all_chars is_digit fp'
      && negb (String.eqb (ip +:+ fp') ""))%bool
  then Ok (Qred (digits_value (ip +:+ fp')
                 # Z.to_pos (10 ^ Z.of_nat (String.length fp'))))
  else Raise (ValueError ("could not convert string to float: " +:+ repr s)).

End Py.
Import Py.

(** ** The fragment of [re] the aggregator uses *)

Module Re.

(** Patterns: literal text, a greedy [c*] or [c+] over a character class,
    a capturing group and concatenation. *)
Inductive regex : Type :=
| Lit (p : string)
| Star (c : ascii -> bool)
| Plus (c : ascii -> bool)
| Group (r : regex)
| Seq (r1 r2 : regex).

(** The text left after the literal [p] at the head of [s]. *)
Fixpoint lit_prefix (p s : string) : option string :=
  match p, s with
  | "", _ => Some s
  | String a p', String b s' => if Ascii.eqb a b then lit_prefix p' s' else None
  | String _ _, "" => None
  end.

(** Greedy repetition with backtracking: the longest run of class [c] is
    offered to the continuation first, then each shorter one.  The
    continuation receives the text consumed and the text left. *)
Fixpoint greedy_star {R : Type} (c : ascii -> bool) (s : string)
    (k : string -> string -> option R) : option R :=
  match s with
  | String a s' =>
      if c a then
        match greedy_star c s' (fun m rest => k (String a m) rest) with
        | Some r => Some r
        | None => k "" s
        end
      else k "" s
  | "" => k "" ""
  end.

(** Backtracking matcher anchored at the head of [s].  [gs] are the groups
    closed so far; the continuation receives the text matched, the text
    left and the groups. *)
Fixpoint rmatch {R : Type} (r : regex) (s : string) (gs : list string)
    (k : string -> string -> list string -> option R) : option R :=
  match r with
  | Lit p =>
      match lit_prefix p s with
      | Some rest => k p rest gs
      | None => None
      end
  | Star c => greedy_star c s (fun m rest => k m rest gs)
  | Plus c =>
      greedy_star c s (fun m rest =>
        match m with
        | "" => None
        | String _ _ => k m rest gs
        end)
  | Group r' => rmatch r' s gs (fun m rest gs' => k m rest (gs' ++ [m])%list)
  | Seq r1 r2 =>
      rmatch r1 s gs (fun m1 rest1 gs1 =>
        rmatch r2 rest1 gs1 (fun m2 rest2 gs2 => k (m1 +:+ m2) rest2 gs2))
  end.

(** [re.search]: the match at the leftmost position that has one; the
    match object is the list of its groups. *)
Fixpoint search (r : regex) (s : string) : option (list string) :=
  match rmatch r s [] (fun _ _ gs => Some gs) with
  | Some gs => Some gs
  | None =>
      match s with
      | "" => None
      | String _ s' => search r s'
      end
  end.

(** [m.group(n)], for n >= 1. *)
Definition group (m : list string) (n : nat) : string := nth (n - 1) m "".

(** The head of [s], if any, is not of class [c]. *)
Definition stops (c : ascii -> bool) (s : string) : Prop :=
  match s with
  | "" => True
  | String a _ => c a = false
  end.

End Re.

(** ** The Result Aggregator: [parse_zql_results.py] *)

Module Aggregator.
Import Re.

(** A [pathlib.Path]: a directory and a final component. *)
Record Path : Type := { parent : string; name : string }.

(** [str(path)] *)
Definition path_str (p : Path) : string := parent p +:+ "/" +:+ name p.

(** The file system as the aggregator sees it: the names in the log
    directory, in listing order, and what opening and reading a path
    gives. *)
Record FileSystem : Type := {
  listdir : list string;
  open_read : Path -> result string
}.

(** The dictionary [parse_log_file] returns. *)
Record LogResult : Type := {
  repeat : Z;
  instance : Z;
  success_trials : Z;
  total_trials : Z;
  success_rate : Q
}.

(** [behavior_log_(\d+)_(\d+)\.log] *)
Definition filename_re : regex :=
  Seq (Lit "behavior_log_") (Seq (Group (Plus is_digit))
    (Seq (Lit "_") (Seq (Group (Plus is_digit)) (Lit ".log")))).

(** [Total success trials:\s*(\d+)] *)
Definition success_trials_re : regex :=
  Seq (Lit "Total success trials:") (Seq (Star is_space) (Group (Plus is_digit))).

(** [Total trials:\s*(\d+)] *)
Definition total_trials_re : regex :=
  Seq (Lit "Total trials:") (Seq (Star is_space) (Group (Plus is_digit))).

(** [Success rate:\s*([\d.]+)] *)
Definition success_rate_re : regex :=
  Seq (Lit "Success rate:") (Seq (Star is_space)
    (Group (Plus (fun a => is_digit a || Ascii.eqb a ".")))).

(** The body of the [try] block of [parse_log_file]. *)
Definition parse_log_file_try (fs : FileSystem) (log_path : Path)
    : result (option LogResult) :=
  content ← open_read fs log_path;
  match search filename_re (name log_path) with
  | None => Ok None
  | Some m =>
      repeat ← int_ (group m 1);
      instance ← int_ (group m 2);
      let success_trials_match := search success_trials_re content in
      let total_trials_match := search total_trials_re content in
      let success_rate_match := search success_rate_re content in
      match success_trials_match, total_trials_match, success_rate_match with
      | Some sm, Some tm, Some rm =>
          success_trials ← int_ (group sm 1);
          total_trials ← int_ (group tm 1);
          success_rate ← float_ (group rm 1);
          Ok (Some {| repeat := repeat; instance := instance;
                      success_trials := success_trials;
                      total_trials := total_trials;
                      success_rate := success_rate |})
      | _, _, _ => Ok None
      end
  end.

(** [parse_log_file]: the value returned and the lines written to the
    error stream. *)
Definition parse_log_file (fs : FileSystem) (log_path : Path)
    : option LogResult * list string :=
  match parse_log_file_try fs log_path with
  | Ok r => (r, [])
  | Raise e => (None, ["Error parsing " +:+ path_str log_path +:+ ": " +:+ exn_str e])
  end.

(** *** [main] *)

Definition log_dir : string := "/mnt/public/quanlu".

(** [s * n] for a string [s]. *)
Fixpoint str_mul (s : string) (n : nat) : string :=
  match n with
  | O => ""
  | S n' => s +:+ str_mul s n'
  end.

(** The format specification [:<w] applied to a string. *)
Definition ljust (s : string) (w : nat) : string :=
  s +:+ str_mul " " (w - String.length s).

(** Whether [s] ends with [suf]. *)
Fixpoint ends_with (suf s : string) : bool :=
  String.eqb suf s ||
  match s with
  | "" => false
  | String _ s' => ends_with suf s'
  end.

(** The names [glob("behavior_log_*.log")] selects: they start with
    [behavior_log_] and what follows ends with [.log]. *)
Definition glob_match (n : string) : bool :=
  match lit_prefix "behavior_log_" n with
  | Some rest => ends_with ".log" rest
  | None => false
  end.

(** [log_dir.glob("behavior_log_*.log")], in listing order. *)
Definition glob (fs : FileSystem) : list Path :=
  map (Build_Path log_dir) (filter (fun n => glob_match n = true) (listdir fs)).

(** [sorted]: the stable sort by a key, written as an insertion sort;
    [le x y] compares the keys of [x] and [y]. *)
Section Sorted.
Context {A : Type} (le : A -> A -> bool).

Fixpoint insert_sorted (x : A) (l : list A) : list A :=
  match l with
  | [] => [x]
  | y :: l' => if le x y then x :: y :: l' else y :: insert_sorted x l'
  end.

Definition sorted (l : list A) : list A := foldr insert_sorted [] l.
End Sorted.

(** The order of paths below one directory: that of their names. *)
Definition path_le (p q : Path) : bool := String.leb (name p) (name q).

Definition repeat_le (x y : LogResult) : bool := (repeat x <=? repeat y)%Z.

(** One [print] call of the report.  The record and rollup lines keep
    their fields; their rates are printed with [:<10.2f] and [:.1f]. *)
Inductive line : Type :=
| Text (s : string)
| Row (instance repeat success_trials total_trials : Z) (success_rate : Q)
      (status : string)
| InstanceSummary (instance inst_success inst_total : Z) (inst_rate : Q)
| Overall (total_success total_trials : Z) (overall_rate : Q).

(** What a run leaves behind: both streams and the exit code. *)
Record Outcome : Type := {
  stdout : list line;
  stderr : list string;
  exit_code : Z
}.

(** The loop that parses all log files: the records kept and the lines
    written to the error stream. *)
Definition parse_all (fs : FileSystem) (log_files : list Path)
    : list LogResult * list string :=
  foldl (fun '(results, err) log_file =>
           let '(result, e) := parse_log_file fs log_file in
           (match result with
            | Some r => results ++ [r]
            | None => results
            end, err ++ e)%list)
        ([], []) log_files.

(** [by_instance[result["instance"]].append(result)] for each result. *)
Definition group_by_instance (results : list LogResult) : gmap Z (list LogResult) :=
  foldl (fun by_instance result =>
           <[instance result :=
               (default [] (by_instance !! instance result) ++ [result])%list]>
             by_instance)
        ∅ results.

(** [sorted(by_instance.keys())] *)
Definition sorted_keys (by_instance : gmap Z (list LogResult)) : list Z :=
  sorted Z.leb (map fst (map_to_list by_instance)).

Definition SUCCESS : string := "✓ SUCCESS".
Definition FAILED : string := "✗ FAILED".

Definition status_of (result : LogResult) : string :=
  if Qlt_le_dec 0 (success_rate result) then SUCCESS else FAILED.

(** The lines of the first loop over [sorted_instances]. *)
Definition report_rows (by_instance : gmap Z (list LogResult))
    (sorted_instances : list Z) : list line :=
  flat_map (fun instance =>
    let instance_results := sorted repeat_le (default [] (by_instance !! instance)) in
    map (fun result =>
           Row instance (repeat result) (success_trials result)
               (total_trials result) (success_rate result) (status_of result))
        instance_results)
    sorted_instances.

(** [sum(...)] of a list of integers. *)
Definition sum (l : list Z) : Z := foldl Z.add 0 l.

(** [(success / total * 100) if total > 0 else 0.0] *)
Definition rate (success total : Z) : Q :=
  if (0 <? total)%Z then (inject_Z success / inject_Z total * 100)%Q else 0%Q.

(** The lines of the second loop over [sorted_instances]. *)
Definition instance_summaries (by_instance : gmap Z (list LogResult))
    (sorted_instances : list Z) : list line :=
  map (fun instance =>
    let instance_results := default [] (by_instance !! instance) in
    let inst_success := sum (map success_trials instance_results) in
    let inst_total := sum (map total_trials instance_results) in
    let inst_rate := rate inst_success inst_total in
    InstanceSummary instance inst_success inst_total inst_rate)
    sorted_instances.

(** The report printed for a non-empty list of results. *)
Definition report (results : list LogResult) : list line :=
  let by_instance := group_by_instance results in
  let sorted_instances := sorted_keys by_instance in
  let total_success := sum (map success_trials results) in
  let total_trials := sum (map total_trials results) in
  let overall_rate := rate total_success total_trials in
  ([ Text (nl +:+ str_mul "=" 80);
     Text "ZQL Evaluation Results Summary";
     Text (str_mul "=" 80);
     Text (nl +:+ ljust "Instance" 10 +:+ " " +:+ ljust "Repeat" 8 +:+ " "
           +:+ ljust "Success" 10 +:+ " " +:+ ljust "Total" 8 +:+ " "
           +:+ ljust "Rate" 10 +:+ " " +:+ ljust "Status" 10);
     Text (str_mul "-" 80) ]
   ++ report_rows by_instance sorted_instances
   ++ [ Text (nl +:+ str_mul "-" 80);
        Text "Summary Statistics:";
        Text (str_mul "-" 80);
        Text (nl +:+ "Per-Instance Summary:") ]
   ++ instance_summaries by_instance sorted_instances
   ++ [ Overall total_success total_trials overall_rate;
        Text (str_mul "=" 80 +:+ nl) ])%list.

Definition main (fs : FileSystem) : Outcome :=
  let log_files := sorted path_le (glob fs) in
  match log_files with
  | [] =>
      {| stdout := [];
         stderr := ["No log files found in " +:+ log_dir];
         exit_code := 1 |}
  | _ :: _ =>
      let '(results, err) := parse_all fs log_files in
      match results with
      | [] =>
          {| stdout := [];
             stderr := (err ++ ["No valid results found in log files"])%list;
             exit_code := 1 |}
      | _ :: _ =>
          {| stdout := report results; stderr := err; exit_code := 0 |}
      end
  end.

End Aggregator.

(** ** The rollup rate in double precision *)

Module Binary64.

Definition prec : Z := 53.
Definition emax : Z := 1024.

(** [float(n)] of an integer: the nearest double. *)
Definition of_int (n : Z) : spec_float := binary_normalize prec emax n 0 false.

(** An integer as an unrounded significand. *)
Definition exact (n : Z) : spec_float :=
  match n with
  | Z0 => S754_zero false
  | Zpos p => S754_finite false p 0
  | Zneg p => S754_finite true p 0
  end.

(** [a / b] of two integers: the double nearest to the quotient.  The
    [OverflowError] of a quotient beyond the range is not modelled. *)
Definition truediv (a b : Z) : spec_float := SFdiv prec emax (exact a) (exact b).

(** [(success / total * 100) if total > 0 else 0.0] *)
Definition rate (success total : Z) : spec_float :=
  if (0 <? total)%Z then SFmul prec emax (truediv success total) (of_int 100)
  else S754_zero false.

End Binary64.

(** ** The Trial Runner: [run_zql_batch.py] *)

Module Runner.

(** One [subprocess.run] call: the command line, the environment variable
    set on top of the inherited environment, and the file that receives
    the child's standard output and standard error. *)
Record Invocation : Type := {
  cmd : list string;
  env_override : string * string;
  log_file : string
}.

(** What a run does, in order: lines printed and children run to
    completion, each with its return code.  Opening the log file of a child
    for writing is taken to succeed. *)
Inductive event : Type :=
| Print (s : string)
| Spawn (inv : Invocation) (returncode : Z).

(** [range(a, b)] *)
Definition range (a b : Z) : list Z :=
  map (fun k => a + Z.of_nat k) (seq 0 (Z.to_nat (b - a))).

Definition zql_eval_path : string :=
  "/opt/BEHAVIOR-1K/OmniGibson/omnigibson/learning/zql_eval.py".

Definition base_args : list string :=
  [ "policy=websocket";
    "task.name=turning_on_radio";
    "env_wrapper._target_=behavior.learning.wrappers.RGBWrapper" ].

Section Run.
(** [sys.executable] *)
Variable executable : string.
(** The evaluated program: its return code, which may depend on all that
    happened before it was started. *)
Variable child : list event -> Invocation -> Z.

Variable outer_repeats : Z.
Variable instance_range : list Z.

Definition log_file_of (repeat i : Z) : string :=
  "/mnt/public/quanlu/behavior_log_" +:+ str repeat +:+ "_" +:+ str i +:+ ".log".

Definition invocation (repeat i : Z) : Invocation :=
  let log_path := "/mnt/public/quanlu/behavior_log_" +:+ str repeat +:+ "_" +:+ str i in
  {| cmd := ([executable; zql_eval_path; "--instance_index"; str i]
             ++ base_args ++ ["log_path=" +:+ log_path])%list;
     env_override := ("CUDA_VISIBLE_DEVICES", "0");
     log_file := log_file_of repeat i |}.

Definition failed_msg (returncode : Z) : string :=
  "[run_zql_batch] Command failed with code " +:+ str returncode +:+ ", aborting.".

Definition check_msg (log_file : string) : string :=
  "[run_zql_batch] Check log file: " +:+ log_file.

(** The body of the inner loop for the cell [(repeat, i)], started after
    the events [tr]: the events after it and [Some c] when it ends the
    run with [sys.exit(c)]. *)
Definition run_cell (repeat i : Z) (tr : list event) : list event * option Z :=
  let inv := invocation repeat i in
  let tr1 :=
    (tr ++ [ Print ("[run_zql_batch] Running: CUDA_VISIBLE_DEVICES=0 "
                     +:+ String.concat " " (cmd inv));
             Print ("[run_zql_batch] Logging to: " +:+ log_file inv) ])%list in
  let returncode := child tr1 inv in
  let tr2 := (tr1 ++ [Spawn inv returncode])%list in
  if decide (returncode ≠ 0)
  then ((tr2 ++ [ Print (failed_msg returncode);
                  Print (check_msg (log_file inv)) ])%list, Some returncode)
  else (tr2, None).

(** [for i in instance_range: ...] *)
Fixpoint inner_loop (repeat : Z) (instances : list Z) (tr : list event)
    : list event * option Z :=
  match instances with
  | [] => (tr, None)
  | i :: rest =>
      match run_cell repeat i tr with
      | (tr', Some c) => (tr', Some c)
      | (tr', None) => inner_loop repeat rest tr'
      end
  end.

(** [for repeat in range(outer_repeats): ...] *)
Fixpoint outer_loop (repeats : list Z) (tr : list event)
    : list event * option Z :=
  match repeats with
  | [] => (tr, None)
  | repeat :: rest =>
      let tr1 :=
        (tr ++ [ Print ("[run_zql_batch] Repeat " +:+ str (repeat + 1)
                        +:+ "/" +:+ str outer_repeats) ])%list in
      match inner_loop repeat instance_range tr1 with
      | (tr', Some c) => (tr', Some c)
      | (tr', None) => outer_loop rest tr'
      end
  end.

(** The two loops of [main]: the events of the run and the argument of
    [sys.exit], if it was called. *)
Definition run_grid : list event * option Z :=
  outer_loop (range 0 outer_repeats) [].

(** The exit code of the run: that of [sys.exit], or 0 when [main]
    returns. *)
Definition exit_code : Z := default 0 (snd run_grid).

Definition trace : list event := fst run_grid.

End Run.

(** [main], with the grid of the script: 4 repeats of instances 10..18. *)
Definition main (executable : string) (child : list event -> Invocation -> Z)
    : list event * option Z :=
  run_grid executable child 4 (range 10 19).

(** The children run, in order, with their return codes. *)
Definition spawns (tr : list event) : list (Invocation * Z) :=
  omap (fun e => match e with
                 | Spawn inv rc => Some (inv, rc)
                 | Print _ => None
                 end) tr.

(** The cells of the grid in the order of the specification: repeats
    outermost, instances innermost. *)
Definition cells_of (repeats instance_range : list Z) : list (Z * Z) :=
  flat_map (fun r => map (pair r) instance_range) repeats.

Definition grid (outer_repeats : Z) (instance_range : list Z) : list (Z * Z) :=
  cells_of (range 0 outer_repeats) instance_range.

(** The name of the log file of a cell, as the naming convention has it. *)
Definition log_name (repeat i : Z) : string :=
  "behavior_log_" +:+ str repeat +:+ "_" +:+ str i +:+ ".log".

(** A summary of the events from [tr] to [tr'] of a run over [cells] that
    ended with [o]: either every cell was run and returned 0, or the cells
    up to a first failing one were run, the failure was reported and
    nothing followed. *)
Inductive Ran (executable : string) (cells : list (Z * Z)) (tr tr' : list event)
    : option Z -> Prop :=
| Ran_all (sp : list (Invocation * Z)) :
    spawns tr' = (spawns tr ++ sp)%list ->
    map fst sp = map (fun c => invocation executable c.1 c.2) cells ->
    Forall (fun x => x.2 = 0) sp ->
    Ran executable cells tr tr' None
| Ran_failed (c : Z) (done rest : list (Z * Z)) (r i : Z)
    (tr0 : list event) (sp : list (Invocation * Z)) :
    c <> 0 ->
    cells = (done ++ (r, i) :: rest)%list ->
    tr' = (tr0 ++ [ Spawn (invocation executable r i) c;
                    Print (failed_msg c);
                    Print (check_msg (log_file_of r i)) ])%list ->
    spawns tr0 = (spawns tr ++ sp)%list ->
    map fst sp = map (fun c => invocation executable c.1 c.2) done ->
    Forall (fun x => x.2 = 0) sp ->
    Ran executable cells tr tr' (Some c).

End Runner.

(** ** Vocabulary of the statements and sample inputs *)

Module Samples.
Import Aggregator.

(** Whether [p] occurs somewhere in [s]. *)
Fixpoint occursb (p s : string) : bool :=
  match Re.lit_prefix p s with
  | Some _ => true
  | None =>
      match s with
      | "" => false
      | String _ s' => occursb p s'
      end
  end.

(** The labels of the three markers. *)
Definition labels : list string :=
  ["Total success trials:"; "Total trials:"; "Success rate:"].

(** A line of text in which no marker label occurs. *)
Definition plain_line (l : string) : Prop :=
  Forall (fun label => occursb label l = false) labels.

Definition not_newline (a : ascii) : bool := negb (Ascii.eqb a (ascii_of_nat 10)).

(** The text made of the given lines, each ended by a newline. *)
Fixpoint unlines (ls : list string) : string :=
  match ls with
  | [] => ""
  | l :: ls' => l +:+ nl +:+ unlines ls'
  end.

(** A log text with the three markers. *)
Definition log_text (success total rate : string) : string :=
  unlines [ "Total success trials: " +:+ success;
            "Total trials: " +:+ total;
            "Success rate: " +:+ rate ].

(** The report line of a record, as the specification describes it. *)
Definition row_of (r : LogResult) : line :=
  Row (instance r) (repeat r) (success_trials r) (total_trials r)
      (success_rate r) (status_of r).

(** The [(instance, repeat)] of a report line, for the lines that show a
    record. *)
Definition row_key (l : line) : option (Z * Z) :=
  match l with
  | Row instance repeat _ _ _ _ => Some (instance, repeat)
  | _ => None
  end.

(** The lines of a report that show a record, and their
    [(instance, repeat)]. *)
Definition rows (ls : list line) : list line :=
  filter (fun l => is_Some (row_key l)) ls.

Definition row_keys (ls : list line) : list (Z * Z) := omap row_key ls.

(** Ascending order of instance, then of repeat. *)
Definition key_le (a b : Z * Z) : Prop :=
  a.1 < b.1 \/ (a.1 = b.1 /\ a.2 <= b.2).

(** The records of one instance, in the order of the list. *)
Definition of_instance (i : Z) (results : list LogResult) : list LogResult :=
  filter (fun r => instance r = i) results.




(** Records of instances 3 and 1 with their repeats out of order. *)
Definition shuffled_records : list LogResult :=
  [ {| repeat := 2; instance := 3; success_trials := 1; total_trials := 4;
       success_rate := 25 |};
    {| repeat := 1; instance := 1; success_trials := 0; total_trials := 4;
       success_rate := 0 |};
    {| repeat := 0; instance := 3; success_trials := 4; total_trials := 4;
       success_rate := 100 |};
    {| repeat := 0; instance := 1; success_trials := 2; total_trials := 4;
       success_rate := 50 |};
    {| repeat := 1; instance := 3; success_trials := 2; total_trials := 4;
       success_rate := 50 |} ].

(** A file system given by the files of the log directory, in listing
    order, each with its text or the exception that reading it raises.
    Opening a name that is not listed raises [OSError]. *)
Definition files_fs (files : list (string * result string)) : FileSystem :=
  {| listdir := files.*1;
     open_read := fun p =>
       match list_find (fun f => f.1 = name p) files with
       | Some (_, f) => f.2
       | None => Raise (OSError ("[Errno 2] No such file or directory: "
                                 +:+ repr (path_str p)))
       end |}.

Definition in_log_dir (n : string) : Path := {| parent := log_dir; name := n |}.

(** All three markers, the rate not a well-formed decimal. *)
Definition malformed_log : string := log_text "8" "10" "1.2.3".

(** No total-trials marker. *)
Definition incomplete_log : string :=
  unlines ["Total success trials: 8"; "Success rate: 80.00"].

Definition denied : exn :=
  OSError "[Errno 13] Permission denied: '/mnt/public/quanlu/behavior_log_0_3.log'".

(** A log directory with five logs in no particular order, one of them
    unreadable and one incomplete, and two files that are not logs. *)
Definition sample_fs : FileSystem :=
  files_fs [ ("behavior_log_1_3.log", Ok (log_text "1" "2" "50.00"));
             ("behavior_log_0_3.log", Raise denied);
             ("notes.txt", Ok "Total trials: 7");
             ("behavior_log_0_1.log", Ok (log_text "5" "10" "50.00"));
             ("behavior_log_1_1.log", Ok (log_text "0" "0" "0.00"));
             ("behavior_log_x.log", Ok (log_text "1" "1" "100.00"));
             ("behavior_log_0_10.log", Ok incomplete_log) ].


(** A child that fails with code 3 on the cell [(0, 11)] and succeeds on
    every other. *)
Definition failing_child (tr : list Runner.event) (inv : Runner.Invocation) : Z :=
  if decide (Runner.log_file inv = Runner.log_file_of 0 11) then 3 else 0.


(** *** Vocabulary of the further properties *)

(** The class of the rate pattern: a digit or a full stop. *)
Definition rate_char (a : ascii) : bool := is_digit a || Ascii.eqb a ".".

(** The text [label ws d] occurs in [s], [ws] being white space. *)
Definition marked (label d s : string) : Prop :=
  exists pre ws post,
    s = pre +:+ label +:+ ws +:+ d +:+ post /\ all_chars is_space ws = true.

(** [n] zeros. *)
Definition zeros (n : nat) : string := str_mul "0" n.




(** The two lines the runner prints before it starts a child. *)
Definition running_msg (inv : Runner.Invocation) : string :=
  "[run_zql_batch] Running: CUDA_VISIBLE_DEVICES=0 "
  +:+ String.concat " " (Runner.cmd inv).

Definition logging_msg (inv : Runner.Invocation) : string :=
  "[run_zql_batch] Logging to: " +:+ Runner.log_file inv.

(** Every child in a trace stands right after its two lines, and its
    return code is the one the child gives after the events before it. *)
Definition announced (child : list Runner.event -> Runner.Invocation -> Z)
    (tr : list Runner.event) : Prop :=
  forall (n : nat) (inv : Runner.Invocation) (rc : Z),
    tr !! n = Some (Runner.Spawn inv rc) ->
    exists m : nat,
      n = S (S m)
      /\ tr !! m = Some (Runner.Print (running_msg inv))
      /\ tr !! S m = Some (Runner.Print (logging_msg inv))
      /\ rc = child (take n tr) inv.

(** A character that is no digit. *)
Definition not_digit (a : ascii) : bool := negb (is_digit a).

End Samples.

(** * Properties *)

(** ** The error monad *)

Lemma bind_Ok {A B} (a : A) (f : A -> result B) : (Ok a ≫= f) = f a.
Proof. reflexivity. Qed.

Lemma bind_Raise {A B} (e : exn) (f : A -> result B) : (Raise e ≫= f) = Raise e.
Proof. reflexivity. Qed.

(** Case analysis on a step [t] of a computation in [result] whose
    exceptional outcome closes the goal. *)
Ltac step_ok t :=
  destruct t; rewrite ?bind_Ok, ?bind_Raise; [|done].

(** ** Decimal numerals and the pattern matcher *)

Section Numerals.
Import Re.

Lemma uint_digits (d : Decimal.uint) :
  all_chars is_digit (NilEmpty.string_of_uint d) = true.
Proof. induction d; simpl; auto. Qed.

Lemma str_nonneg (z : Z) :
  0 <= z -> all_chars is_digit (str z) = true /\ str z <> "".
Proof.
  intros Hz. unfold str. destruct z as [|p|p]; [by split|..|lia].
  simpl. unfold NilZero.string_of_uint.
  pose proof (Unsigned.to_uint_nonnil p) as Hnil.
  destruct (Pos.to_uint p) eqn:E; try congruence; rewrite <- E;
    (split; [apply uint_digits | rewrite E; discriminate]).
Qed.

Lemma int_str (z : Z) : 0 <= z -> int_ (str z) = Ok z.
Proof.
  intros Hz. unfold int_, str. destruct z as [|p|p]; [done|..|lia].
  simpl. rewrite NilZero.usu by apply Unsigned.to_uint_nonnil.
  unfold Z.of_uint. by rewrite Unsigned.of_to.
Qed.

Lemma digits_uint (s : string) :
  all_chars is_digit s = true ->
  exists d, NilEmpty.uint_of_string s = Some d.
Proof.
  induction s as [|a s IH]; simpl; [eauto|].
  intros [Ha Hs]%andb_prop. destruct (IH Hs) as [d ->].
  unfold is_digit in Ha. apply andb_prop in Ha as [H0 H9].
  destruct a as [[] [] [] [] [] [] [] []]; try discriminate; simpl; eauto.
Qed.

(** [int] succeeds on what [\d+] captures, with a result that is not
    negative. *)
Lemma int_digits (s : string) :
  all_chars is_digit s = true -> s <> "" ->
  exists z, int_ s = Ok z /\ 0 <= z.
Proof.
  intros Hs Hne. destruct (digits_uint s Hs) as [d Hd].
  unfold int_, NilZero.uint_of_string.
  destruct s; [done|]. rewrite Hd. eexists; split; [done|].
  unfold Z.of_uint. lia.
Qed.

Lemma lit_prefix_app (p s : string) : lit_prefix p (p +:+ s) = Some s.
Proof.
  induction p as [|a p IH]; simpl; [by destruct s|].
  by rewrite Ascii.eqb_refl.
Qed.

Lemma lit_prefix_inv (p s rest : string) :
  lit_prefix p s = Some rest -> s = p +:+ rest.
Proof.
  revert s. induction p as [|a p IH]; intros s; simpl.
  - destruct s; simpl; intros [= <-]; reflexivity.
  - destruct s as [|b s]; [done|].
    destruct (Ascii.eqb a b) eqn:E; [|done].
    apply Ascii.eqb_eq in E as ->. by intros ->%IH.
Qed.

(** A greedy repetition takes the whole run when the rest of the pattern
    accepts what follows it. *)
Lemma greedy_star_max {R} (c : ascii -> bool) (m rest : string)
    (k : string -> string -> option R) (v : R) :
  all_chars c m = true -> stops c rest -> k m rest = Some v ->
  greedy_star c (m +:+ rest) k = Some v.
Proof.
  revert k. induction m as [|a m IH]; simpl; intros k Hm Hrest Hk.
  - destruct rest as [|b rest]; simpl in *; [done|]. by rewrite Hrest.
  - apply andb_prop in Hm as [-> Hm].
    by rewrite (IH (fun m' rest' => k (String a m') rest')).
Qed.

(** Whatever a greedy repetition hands to the rest of the pattern is a
    run of class [c] at the head of the text. *)
Lemma greedy_star_inv {R} (c : ascii -> bool) (s : string)
    (k : string -> string -> option R) (v : R) :
  greedy_star c s k = Some v ->
  exists m rest, s = m +:+ rest /\ all_chars c m = true /\ k m rest = Some v.
Proof.
  revert k. induction s as [|a s IH]; simpl; intros k H.
  - by exists "", "".
  - destruct (c a) eqn:Ea; [|by exists "", (String a s)].
    destruct (greedy_star c s _) eqn:E.
    + injection H as ->. apply IH in E as (m & rest & -> & Hm & Hk).
      exists (String a m), rest. simpl. by rewrite Ea, Hm.
    + by exists "", (String a s).
Qed.

Lemma search_head (r : regex) (s : string) (gs : list string) :
  rmatch r s [] (fun _ _ gs => Some gs) = Some gs -> search r s = Some gs.
Proof. intros H. destruct s; simpl; by rewrite H. Qed.

Lemma search_inv (r : regex) (s : string) (gs : list string) :
  search r s = Some gs ->
  exists pre s', s = pre +:+ s' /\
    rmatch r s' [] (fun _ _ gs => Some gs) = Some gs.
Proof.
  induction s as [|a s IH]; simpl.
  - destruct (rmatch r "" [] _) eqn:E; [|done]. intros [= <-]. by exists "", "".
  - destruct (rmatch r (String a s) [] _) eqn:E.
    + intros [= <-]. by exists "", (String a s).
    + intros (pre & s' & -> & H)%IH. by exists (String a pre), s'.
Qed.

(** The name the runner gives to the log of a cell is one the aggregator
    reads the cell back from. *)
Lemma filename_roundtrip (r i : Z) :
  0 <= r -> 0 <= i ->
  search Aggregator.filename_re (Runner.log_name r i) = Some [str r; str i].
Proof.
  intros [Hr Hr']%str_nonneg [Hi Hi']%str_nonneg.
  apply search_head. unfold Aggregator.filename_re, Runner.log_name.
  cbn [rmatch]. rewrite lit_prefix_app.
  apply greedy_star_max; [done..|]. destruct (str r) eqn:Er; [done|].
  rewrite <- Er. change (lit_prefix "_" ("_" +:+ ?x)) with (Some x). cbv beta iota.
  apply greedy_star_max; [done..|]. destruct (str i) eqn:Ei; [done|].
  by rewrite <- Ei.
Qed.

End Numerals.

(** ** The Trial Runner *)

Section RunnerFacts.
Import Runner.

Variable executable : string.
Variable child : list event -> Invocation -> Z.
Variable outer_repeats : Z.
Variable instance_range : list Z.


Lemma spawns_app (a b : list event) : spawns (a ++ b) = (spawns a ++ spawns b)%list.
Proof. apply omap_app. Qed.

Lemma Ran_nil tr : Ran executable [] tr tr None.
Proof. apply (Ran_all _ _ _ _ []); [by rewrite app_nil_r|done|done]. Qed.

Lemma Ran_print cells tr s tr' o :
  Ran executable cells (tr ++ [Print s]) tr' o -> Ran executable cells tr tr' o.
Proof.
  intros H; destruct H as [sp H1 H2 H3|c done rest r i tr0 sp Hc Hcells Htr H1 H2 H3];
    rewrite spawns_app in H1; simpl in H1; rewrite app_nil_r in H1.
  - by eapply Ran_all.
  - by eapply Ran_failed.
Qed.

Lemma Ran_app cells1 cells2 tr tr1 tr2 o :
  Ran executable cells1 tr tr1 None -> Ran executable cells2 tr1 tr2 o ->
  Ran executable (cells1 ++ cells2) tr tr2 o.
Proof.
  intros H1 H2. inversion H1 as [sp1 Hs1 Hm1 Hz1|]; subst.
  destruct H2 as [sp2 Hs2 Hm2 Hz2|c done rest r i tr0 sp2 Hc Hcells Htr Hs2 Hm2 Hz2].
  - apply (Ran_all _ _ _ _ (sp1 ++ sp2)).
    + by rewrite Hs2, Hs1, app_assoc.
    + by rewrite !map_app, Hm1, Hm2.
    + by apply Forall_app.
  - apply (Ran_failed _ _ _ _ c (cells1 ++ done) rest r i tr0 (sp1 ++ sp2)); try done.
    + by rewrite Hcells, app_assoc.
    + by rewrite Hs2, Hs1, app_assoc.
    + by rewrite !map_app, Hm1, Hm2.
    + by apply Forall_app.
Qed.

Lemma Ran_failed_app cells1 cells2 tr tr1 c :
  Ran executable cells1 tr tr1 (Some c) ->
  Ran executable (cells1 ++ cells2) tr tr1 (Some c).
Proof.
  intros H. inversion H as [|c' done rest r i tr0 sp Hc Hcells Htr Hs Hm Hz]; subst.
  apply (Ran_failed _ _ _ _ c done (rest ++ cells2) r i tr0 sp); try done.
  by rewrite <- app_assoc.
Qed.

Lemma run_cell_Ran repeat i tr tr' o :
  run_cell executable child repeat i tr = (tr', o) ->
  Ran executable [(repeat, i)] tr tr' o.
Proof.
  unfold run_cell.
  destruct (decide (child _ _ ≠ 0)) as [Hrc|Hrc]; intros [= <- <-].
  - eapply (Ran_failed _ _ _ _ _ [] [] repeat i (tr ++ [_; _]) []); try done.
    + by rewrite <- (app_assoc _ [Spawn _ _]).
    + by rewrite !spawns_app, !app_nil_r.
  - apply dec_stable in Hrc.
    eapply (Ran_all _ _ _ _ [(_, _)]); [|done|by constructor].
    rewrite !spawns_app. simpl. by rewrite app_nil_r.
Qed.

Lemma inner_loop_Ran repeat instances tr tr' o :
  inner_loop executable child repeat instances tr = (tr', o) ->
  Ran executable (map (pair repeat) instances) tr tr' o.
Proof.
  revert tr. induction instances as [|i rest IH]; simpl; intros tr.
  - intros [= <- <-]. apply Ran_nil.
  - destruct (run_cell _ _ _ _ _) as [tr1 [c|]] eqn:E; apply run_cell_Ran in E.
    + intros [= <- <-]. by apply (Ran_failed_app [_]).
    + intros H%IH. by apply (Ran_app [_] _ _ tr1).
Qed.

Lemma outer_loop_Ran repeats tr tr' o :
  outer_loop executable child outer_repeats instance_range repeats tr = (tr', o) ->
  Ran executable (cells_of repeats instance_range) tr tr' o.
Proof.
  revert tr. induction repeats as [|r rest IH]; simpl; intros tr.
  - intros [= <- <-]. apply Ran_nil.
  - destruct (inner_loop _ _ _ _ _) as [tr1 [c|]] eqn:E;
      apply inner_loop_Ran, Ran_print in E.
    + intros [= <- <-]. by apply Ran_failed_app.
    + intros H%IH. by apply (Ran_app _ _ _ tr1).
Qed.

Lemma run_grid_Ran :
  Ran executable (grid outer_repeats instance_range) []
    (trace executable child outer_repeats instance_range)
    (snd (run_grid executable child outer_repeats instance_range)).
Proof.
  unfold trace. destruct (run_grid _ _ _ _) as [tr o] eqn:E.
  by apply outer_loop_Ran in E.
Qed.



Lemma elem_of_range (a b x : Z) : x ∈ range a b -> a <= x < b.
Proof.
  unfold range. intros (k & -> & Hk)%list_elem_of_fmap.
  apply elem_of_seq in Hk. lia.
Qed.

Lemma elem_of_cells_of (repeats : list Z) (r i : Z) :
  (r, i) ∈ cells_of repeats instance_range -> r ∈ repeats /\ i ∈ instance_range.
Proof.
  unfold cells_of. intros H. apply list_elem_of_In, in_flat_map in H.
  destruct H as (r0 & Hr0 & Hin).
  apply in_map_iff in Hin as (i0 & [= -> ->] & Hi0).
  split; by apply list_elem_of_In.
Qed.

(** The children run are an initial segment of the grid. *)
Lemma spawns_prefix :
  exists rest,
    map (fun c => invocation executable c.1 c.2) (grid outer_repeats instance_range)
    = (map fst (spawns (trace executable child outer_repeats instance_range))
       ++ rest)%list.
Proof.
  pose proof run_grid_Ran as H.
  destruct (run_grid _ _ _ _).2 as [c'|];
    inversion H as [sp Hs Hm Hz|c0 done rest r' i' tr0 sp Hc Hcells Htr Hs Hm Hz];
    subst; simpl in *.
  - exists (map (fun c => invocation executable c.1 c.2) rest).
    rewrite Htr, spawns_app, Hs, Hcells, !map_app, Hm. simpl.
    by rewrite <- app_assoc.
  - exists []. by rewrite Hs, Hm, app_nil_r.
Qed.



End RunnerFacts.





(** ** The Result Aggregator: parsing one file *)

Section ParseFacts.
Import Re Aggregator Samples.

(** The groups of a match of the file-name pattern: two non-empty digit
    strings. *)
Lemma filename_groups (n : string) (m : list string) :
  search filename_re n = Some m ->
  exists a b, m = [a; b]
    /\ all_chars is_digit a = true /\ a <> ""
    /\ all_chars is_digit b = true /\ b <> "".
Proof.
  intros (pre & s' & -> & H)%search_inv.
  unfold filename_re in H. cbn [rmatch] in H.
  destruct (lit_prefix "behavior_log_" s') as [s1|]; [|done].
  apply greedy_star_inv in H as (a & rest & -> & Ha & H).
  destruct a as [|a0 a]; [done|].
  destruct (lit_prefix "_" rest) as [s2|]; [|done].
  apply greedy_star_inv in H as (b & rest2 & -> & Hb & H).
  destruct b as [|b0 b]; [done|].
  destruct (lit_prefix ".log" rest2); [|done]. injection H as <-.
  by exists (String a0 a), (String b0 b).
Qed.

(** The group of a match of a marker pattern [label:\s*(c+)]: one
    non-empty run of class [c]. *)
Lemma marker_group (label : string) (c : ascii -> bool) (s : string)
    (m : list string) :
  search (Seq (Lit label) (Seq (Star is_space) (Group (Plus c)))) s = Some m ->
  exists a, m = [a] /\ all_chars c a = true /\ a <> "".
Proof.
  intros (pre & s' & -> & H)%search_inv. cbn [rmatch] in H.
  destruct (lit_prefix label s') as [s1|]; [|done].
  apply greedy_star_inv in H as (ws & rest & -> & _ & H).
  apply greedy_star_inv in H as (a & rest2 & -> & Ha & H).
  destruct a as [|a0 a]; [done|]. injection H as <-.
  by exists (String a0 a).
Qed.

Lemma app_cons (x : ascii) (a b : string) : String x a +:+ b = String x (a +:+ b).
Proof. reflexivity. Qed.

Lemma string_app_assoc (a b c : string) : (a +:+ b) +:+ c = a +:+ b +:+ c.
Proof. induction a as [|x a IH]; [done|]. rewrite !app_cons. by f_equal. Qed.

Lemma all_chars_app (c : ascii -> bool) (a b : string) :
  all_chars c (a +:+ b) = all_chars c a && all_chars c b.
Proof.
  induction a as [|x a IH]; [done|]. rewrite app_cons. simpl.
  by rewrite IH, andb_assoc.
Qed.

(** A marker whose label does not occur in the text is absent. *)
Lemma label_absent (label : string) (r : regex) (s : string) :
  occursb label s = false -> search (Seq (Lit label) r) s = None.
Proof.
  induction s as [|a s IH]; cbn [search rmatch occursb];
    by destruct (lit_prefix label _).
Qed.

(** A literal that matches at the head of [b +:+ s] and not at the head of
    [b] runs over the end of [b]. *)
Lemma lit_prefix_split (label b s : string) :
  lit_prefix label b = None -> lit_prefix label (b +:+ s) <> None ->
  exists c w, label = b +:+ String c w /\ lit_prefix (String c w) s <> None.
Proof.
  revert b. induction label as [|x label IH]; intros b; [by destruct b|].
  destruct b as [|y b]; [by exists x, label|]. simpl.
  destruct (Ascii.eqb x y) eqn:E; [|done]. apply Ascii.eqb_eq in E as ->.
  intros Hb Hbs. destruct (IH b Hb Hbs) as (c & w & -> & Hw). by exists c, w.
Qed.

(** No match of a marker starts in a line in which its label does not
    occur: the label would have to run over the end of the line. *)
Lemma marker_not_in_line (label : string) (r : regex) (l rest : string) :
  all_chars not_newline label = true -> occursb label l = false ->
  search (Seq (Lit label) r) (l +:+ nl +:+ rest) = search (Seq (Lit label) r) rest.
Proof.
  intros Hlabel. induction l as [|a l IH]; cbn [occursb].
  - destruct label as [|x label]; [done|]. intros _.
    change ("" +:+ nl +:+ rest) with (String (ascii_of_nat 10) rest).
    cbn [search rmatch lit_prefix].
    apply andb_prop in Hlabel as [Hx _]. unfold not_newline in Hx.
    by destruct (Ascii.eqb x _).
  - destruct (lit_prefix label (String a l)) eqn:Ea; [done|]. intros Hl.
    rewrite app_cons. cbn [search rmatch]. rewrite <- app_cons.
    destruct (lit_prefix label (String a l +:+ nl +:+ rest)) eqn:Eb; [|by apply IH].
    exfalso.
    destruct (lit_prefix_split label (String a l) (nl +:+ rest) Ea) as (c & w & -> & Hw);
      [by rewrite Eb|].
    rewrite all_chars_app in Hlabel. apply andb_prop in Hlabel as [_ Hcw].
    change (nl +:+ rest) with (String (ascii_of_nat 10) rest) in Hw.
    cbn [all_chars lit_prefix] in Hcw, Hw.
    apply andb_prop in Hcw as [Hc _]. unfold not_newline in Hc.
    by destruct (Ascii.eqb c _).
Qed.

(** No match of a marker starts in lines in which its label does not
    occur. *)
Lemma marker_skip_lines (label : string) (r : regex) (ls : list string) (rest : string) :
  all_chars not_newline label = true ->
  Forall (fun l => occursb label l = false) ls ->
  search (Seq (Lit label) r) (unlines ls +:+ rest) = search (Seq (Lit label) r) rest.
Proof.
  intros Hlabel. induction 1 as [|l ls Hl Hls IH]; [done|].
  cbn [unlines]. rewrite !string_app_assoc, marker_not_in_line by done.
  exact IH.
Qed.

(** The start of [parse_log_file] on a readable file with a name of the
    convention: the cell is read from the name without error. *)
Lemma parse_log_file_try_named (fs : FileSystem) (path : Path) (content : string) :
  open_read fs path = Ok content ->
  is_Some (search filename_re (name path)) ->
  exists repeat instance,
    parse_log_file_try fs path =
      match search success_trials_re content,
            search total_trials_re content,
            search success_rate_re content with
      | Some sm, Some tm, Some rm =>
          success_trials ← int_ (group sm 1);
          total_trials ← int_ (group tm 1);
          success_rate ← float_ (group rm 1);
          Ok (Some {| repeat := repeat; instance := instance;
                      success_trials := success_trials;
                      total_trials := total_trials;
                      success_rate := success_rate |})
      | _, _, _ => Ok None
      end.
Proof.
  intros Hread [m Hm]. unfold parse_log_file_try. rewrite Hread, bind_Ok, Hm.
  destruct (filename_groups _ _ Hm) as (a & b & -> & Ha & Ha' & Hb & Hb').
  change (group [a; b] 1) with a. change (group [a; b] 2) with b.
  destruct (int_digits a Ha Ha') as (r & -> & _).
  destruct (int_digits b Hb Hb') as (i & -> & _).
  exists r, i. by rewrite !bind_Ok.
Qed.

End ParseFacts.

(** C3. A log named [behavior_log_2_5.log] whose text contains the three
    marker lines [Total success trials: 8], [Total trials: 10] and
    [Success rate: 80.00], in any order, after any lines in which no marker
    label occurs and before any text, parses to the record with repeat 2,
    instance 5, 8 successes, 10 trials and rate 80, with no diagnostic. *)
Theorem parse_log_file_example (fs : Aggregator.FileSystem)
    (path : Aggregator.Path) (before lines : list string) (after : string) :
  Aggregator.name path = "behavior_log_2_5.log" ->
  Forall Samples.plain_line before ->
  lines ≡ₚ ["Total success trials: 8"; "Total trials: 10"; "Success rate: 80.00"] ->
  Aggregator.open_read fs path
  = Ok (Samples.unlines before +:+ Samples.unlines lines +:+ after) ->
  Aggregator.parse_log_file fs path
  = (Some {| Aggregator.repeat := 2; Aggregator.instance := 5;
             Aggregator.success_trials := 8; Aggregator.total_trials := 10;
             Aggregator.success_rate := 80 |}, []).
Proof.
  intros Hname Hbefore Hperm Hread. symmetry in Hperm.
  apply permutations_Permutation in Hperm.
  assert (forall k label, Samples.labels !! k = Some label ->
                          Forall (fun l => Samples.occursb label l = false) before)
    as Hplain.
  { intros k label Hlabel. eapply Forall_impl; [exact Hbefore|].
    intros l Hl. unfold Samples.plain_line in Hl.
    rewrite Forall_forall in Hl. apply Hl. by eapply list_elem_of_lookup_2. }
  unfold Aggregator.parse_log_file, Aggregator.parse_log_file_try.
  rewrite Hread, Hname, bind_Ok.
  unfold Aggregator.success_trials_re, Aggregator.total_trials_re,
    Aggregator.success_rate_re.
  rewrite (marker_skip_lines "Total success trials:")
    by (reflexivity || exact (Hplain 0%nat _ eq_refl)).
  rewrite (marker_skip_lines "Total trials:")
    by (reflexivity || exact (Hplain 1%nat _ eq_refl)).
  rewrite (marker_skip_lines "Success rate:")
    by (reflexivity || exact (Hplain 2%nat _ eq_refl)).
  set (ps := permutations _) in Hperm. vm_compute in ps. subst ps.
  rewrite !elem_of_cons in Hperm.
  destruct Hperm as [->|[->|[->|[->|[->|[->|Hnil]]]]]];
    [vm_compute; reflexivity..|by apply elem_of_nil in Hnil].
Qed.

Lemma parse_log_file_example_witness :
  Aggregator.parse_log_file
    (Samples.files_fs
       [("behavior_log_2_5.log",
         Ok (Samples.unlines ["Episode 1: success"; "Episode 2: timeout"]
             +:+ Samples.log_text "8" "10" "80.00" +:+ "done"))])
    (Samples.in_log_dir "behavior_log_2_5.log")
  = (Some {| Aggregator.repeat := 2; Aggregator.instance := 5;
             Aggregator.success_trials := 8; Aggregator.total_trials := 10;
             Aggregator.success_rate := 80 |}, []).
Proof.
  apply (parse_log_file_example _ _ ["Episode 1: success"; "Episode 2: timeout"]
           ["Total success trials: 8"; "Total trials: 10"; "Success rate: 80.00"]
           "done");
    [reflexivity| |reflexivity|reflexivity].
  repeat constructor.
Defined.

(** C4. A readable log with a name of the convention in which any one of
    the three markers is absent gives no record and writes nothing to the
    error stream, whichever marker it is. *)
Theorem missing_marker_silent (fs : Aggregator.FileSystem)
    (path : Aggregator.Path) (content : string) :
  Aggregator.open_read fs path = Ok content ->
  is_Some (Re.search Aggregator.filename_re (Aggregator.name path)) ->
  Re.search Aggregator.success_trials_re content = None
  \/ Re.search Aggregator.total_trials_re content = None
  \/ Re.search Aggregator.success_rate_re content = None ->
  Aggregator.parse_log_file fs path = (None, []).
Proof.
  intros Hread Hname Habsent.
  destruct (parse_log_file_try_named fs path content Hread Hname) as (r & i & E).
  unfold Aggregator.parse_log_file. rewrite E.
  destruct Habsent as [->|[->| ->]]; [done|by case_match|by repeat case_match].
Qed.

Lemma missing_marker_silent_witness :
  Aggregator.parse_log_file
    (Samples.files_fs [("behavior_log_0_10.log", Ok Samples.incomplete_log)])
    (Samples.in_log_dir "behavior_log_0_10.log")
  = (None, []).
Proof.
  apply (missing_marker_silent _ _ Samples.incomplete_log).
  - reflexivity.
  - vm_compute. eexists. reflexivity.
  - right. left. apply label_absent. vm_compute. reflexivity.
Defined.

(** ** The Result Aggregator: the scan of the directory *)

Section ScanFacts.
Import Re Aggregator Samples.

Variable fs : FileSystem.

(** The step of the parsing loop. *)
Lemma parse_all_acc (log_files : list Path) (rs : list LogResult) (es : list string) :
  foldl (fun '(results, err) log_file =>
           let '(result, e) := parse_log_file fs log_file in
           (match result with
            | Some r => results ++ [r]
            | None => results
            end, err ++ e)%list)
        (rs, es) log_files
  = ((rs ++ (parse_all fs log_files).1)%list, (es ++ (parse_all fs log_files).2)%list).
Proof.
  unfold parse_all. revert rs es.
  induction log_files as [|p l IH]; intros rs es; simpl.
  - by rewrite !app_nil_r.
  - destruct (parse_log_file fs p) as [[r|] e]; simpl;
      rewrite IH, (IH _ e); simpl; by rewrite <- ?app_assoc.
Qed.

Lemma parse_all_cons (p : Path) (l : list Path) :
  parse_all fs (p :: l)
  = ((option_list (parse_log_file fs p).1 ++ (parse_all fs l).1)%list,
     ((parse_log_file fs p).2 ++ (parse_all fs l).2)%list).
Proof.
  unfold parse_all at 1. simpl.
  destruct (parse_log_file fs p) as [[r|] e]; by rewrite parse_all_acc.
Qed.

Lemma parse_all_app (l1 l2 : list Path) :
  parse_all fs (l1 ++ l2)
  = (((parse_all fs l1).1 ++ (parse_all fs l2).1)%list,
     ((parse_all fs l1).2 ++ (parse_all fs l2).2)%list).
Proof.
  induction l1 as [|p l1 IH]; simpl.
  - by destruct (parse_all fs l2).
  - rewrite !parse_all_cons, IH. simpl. by rewrite <- !app_assoc.
Qed.

(** The counts of a record read from a log are not negative. *)
Lemma parse_log_file_nonneg (p : Path) (r : LogResult) (e : list string) :
  parse_log_file fs p = (Some r, e) ->
  0 <= success_trials r /\ 0 <= total_trials r.
Proof.
  unfold parse_log_file, parse_log_file_try.
  destruct (open_read fs p) as [content|ex]; rewrite ?bind_Ok, ?bind_Raise; [|done].
  destruct (search filename_re (name p)) as [m|]; [|done].
  step_ok (int_ (group m 1)). step_ok (int_ (group m 2)).
  destruct (search success_trials_re content) as [sm|] eqn:Es; [|done].
  destruct (search total_trials_re content) as [tm|] eqn:Et; [|done].
  destruct (search success_rate_re content) as [rm|]; [|done].
  destruct (marker_group _ _ _ _ Es) as (sd & -> & Hsd & Hsd').
  destruct (marker_group _ _ _ _ Et) as (td & -> & Htd & Htd').
  change (group [sd] 1) with sd. change (group [td] 1) with td.
  destruct (int_digits sd Hsd Hsd') as (s & -> & Hs).
  destruct (int_digits td Htd Htd') as (t & -> & Ht). rewrite !bind_Ok.
  step_ok (float_ (group rm 1)).
  by intros [= <- <-].
Qed.




End ScanFacts.

(** C5. A log whose content cannot be read gives no record and exactly one
    line on the error stream, which names the file and the exception; the
    files listed before and after it are parsed as they would be without
    it. *)
Theorem unreadable_reported (fs : Aggregator.FileSystem) (path : Aggregator.Path)
    (e : exn) (before after : list Aggregator.Path) :
  Aggregator.open_read fs path = Raise e ->
  let diagnostic :=
    "Error parsing " +:+ Aggregator.path_str path +:+ ": " +:+ exn_str e in
  Aggregator.parse_log_file fs path = (None, [diagnostic])
  /\ Aggregator.parse_all fs (before ++ path :: after)
     = (((Aggregator.parse_all fs before).1 ++ (Aggregator.parse_all fs after).1)%list,
        ((Aggregator.parse_all fs before).2
           ++ diagnostic :: (Aggregator.parse_all fs after).2)%list).
Proof.
  intros Hread diagnostic.
  assert (Aggregator.parse_log_file fs path = (None, [diagnostic])) as Hp.
  { unfold Aggregator.parse_log_file, Aggregator.parse_log_file_try.
    by rewrite Hread, bind_Raise. }
  split; [done|]. by rewrite parse_all_app, parse_all_cons, Hp.
Qed.

Lemma unreadable_reported_witness :
  Aggregator.parse_all Samples.sample_fs
    (map Samples.in_log_dir
       ["behavior_log_0_1.log"; "behavior_log_0_3.log"; "behavior_log_1_1.log"])
  = ([ {| Aggregator.repeat := 0; Aggregator.instance := 1;
          Aggregator.success_trials := 5; Aggregator.total_trials := 10;
          Aggregator.success_rate := 50 |};
       {| Aggregator.repeat := 1; Aggregator.instance := 1;
          Aggregator.success_trials := 0; Aggregator.total_trials := 0;
          Aggregator.success_rate := 0 |} ],
     [ "Error parsing /mnt/public/quanlu/behavior_log_0_3.log: [Errno 13] Permission denied: '/mnt/public/quanlu/behavior_log_0_3.log'" ]).
Proof.
  exact (proj2 (unreadable_reported Samples.sample_fs
                  (Samples.in_log_dir "behavior_log_0_3.log") Samples.denied
                  [Samples.in_log_dir "behavior_log_0_1.log"]
                  [Samples.in_log_dir "behavior_log_1_1.log"] eq_refl)).
Defined.



(** C10. There is a log text in which all three markers are present and the
    rate reads [1.2.3], which the rate pattern matches and [float] rejects;
    and for every readable log with a name of the convention whose three
    markers are present and whose rate text [float] rejects, parsing gives
    no record and writes one line to the error stream, naming the file and
    the conversion error: the path taken is that of the exception handler,
    not the silent skip. *)
Theorem malformed_rate_reported :
  (Re.search Aggregator.success_trials_re Samples.malformed_log = Some ["8"]
   /\ Re.search Aggregator.total_trials_re Samples.malformed_log = Some ["10"]
   /\ Re.search Aggregator.success_rate_re Samples.malformed_log = Some ["1.2.3"]
   /\ float_ "1.2.3"
      = Raise (ValueError "could not convert string to float: '1.2.3'"))
  /\ forall (fs : Aggregator.FileSystem) (path : Aggregator.Path)
       (content : string) (sm tm rm : list string) (e : exn),
      Aggregator.open_read fs path = Ok content ->
      is_Some (Re.search Aggregator.filename_re (Aggregator.name path)) ->
      Re.search Aggregator.success_trials_re content = Some sm ->
      Re.search Aggregator.total_trials_re content = Some tm ->
      Re.search Aggregator.success_rate_re content = Some rm ->
      float_ (Re.group rm 1) = Raise e ->
      Aggregator.parse_log_file fs path
      = (None, ["Error parsing " +:+ Aggregator.path_str path +:+ ": " +:+ exn_str e]).
Proof.
  split; [by vm_compute|].
  intros fs path content sm tm rm e Hread Hname Hsm Htm Hrm Hfloat.
  destruct (parse_log_file_try_named fs path content Hread Hname) as (r & i & E).
  unfold Aggregator.parse_log_file. rewrite E, Hsm, Htm, Hrm.
  destruct (marker_group _ _ _ _ Hsm) as (a & -> & Ha & Ha').
  destruct (marker_group _ _ _ _ Htm) as (b & -> & Hb & Hb').
  change (Re.group [a] 1) with a. change (Re.group [b] 1) with b.
  destruct (int_digits a Ha Ha') as (s & -> & _).
  destruct (int_digits b Hb Hb') as (t & -> & _).
  by rewrite !bind_Ok, Hfloat, bind_Raise.
Qed.

Lemma malformed_rate_reported_witness :
  Aggregator.parse_log_file
    (Samples.files_fs [("behavior_log_2_5.log", Ok Samples.malformed_log)])
    (Samples.in_log_dir "behavior_log_2_5.log")
  = (None, ["Error parsing /mnt/public/quanlu/behavior_log_2_5.log: could not convert string to float: '1.2.3'"]).
Proof.
  exact (proj2 malformed_rate_reported
           (Samples.files_fs [("behavior_log_2_5.log", Ok Samples.malformed_log)])
           (Samples.in_log_dir "behavior_log_2_5.log") Samples.malformed_log
           ["8"] ["10"] ["1.2.3"]
           (ValueError "could not convert string to float: '1.2.3'")
           eq_refl (ex_intro _ ["2"; "5"] eq_refl) eq_refl eq_refl eq_refl eq_refl).
Defined.

(** ** Sorting and grouping *)

Section SortedFacts.
Import Aggregator.

Context {A : Type} (le : A -> A -> bool).
Hypothesis le_total : forall x y, le x y = true \/ le y x = true.
Hypothesis le_trans : forall x y z, le x y = true -> le y z = true -> le x z = true.

Lemma insert_sorted_perm (x : A) (l : list A) : insert_sorted le x l ≡ₚ x :: l.
Proof.
  induction l as [|y l IH]; simpl; [done|].
  destruct (le x y); [done|]. by rewrite IH, Permutation_swap.
Qed.

Lemma sorted_perm (l : list A) : sorted le l ≡ₚ l.
Proof.
  induction l as [|x l IH]; simpl; [done|].
  by rewrite insert_sorted_perm, IH.
Qed.

Lemma insert_sorted_ascending (x : A) (l : list A) :
  StronglySorted (fun a b => le a b = true) l ->
  StronglySorted (fun a b => le a b = true) (insert_sorted le x l).
Proof.
  induction 1 as [|y l Hl IH Hy]; simpl; [by repeat constructor|].
  destruct (le x y) eqn:E.
  - repeat constructor; [done..|].
    eapply Forall_impl; [exact Hy|]. intros z Hz. by eapply le_trans.
  - constructor; [done|]. rewrite insert_sorted_perm. constructor; [|done].
    by destruct (le_total x y) as [H|H]; [congruence|].
Qed.

Lemma sorted_ascending (l : list A) :
  StronglySorted (fun a b => le a b = true) (sorted le l).
Proof.
  induction l as [|x l IH]; simpl; [constructor|].
  by apply insert_sorted_ascending.
Qed.

End SortedFacts.

Section GroupFacts.
Import Aggregator Samples.

(** Appending one result to its group. *)
Lemma group_step_lookup (m : gmap Z (list LogResult)) (r : LogResult) (k : Z) :
  default [] (<[instance r := (default [] (m !! instance r) ++ [r])%list]> m !! k)
  = (default [] (m !! k) ++ of_instance k [r])%list.
Proof.
  unfold of_instance. rewrite filter_cons, filter_nil.
  destruct (decide (instance r = k)) as [->|Hne].
  - by rewrite lookup_insert_eq.
  - by rewrite lookup_insert_ne, app_nil_r.
Qed.

Lemma group_acc_lookup (results : list LogResult) (m : gmap Z (list LogResult)) (k : Z) :
  default []
    (foldl (fun by_instance result =>
              <[instance result :=
                  (default [] (by_instance !! instance result) ++ [result])%list]>
                by_instance) m results !! k)
  = (default [] (m !! k) ++ of_instance k results)%list.
Proof.
  revert m. induction results as [|r rs IH]; intros m; simpl.
  - by rewrite app_nil_r.
  - rewrite IH, group_step_lookup, <- app_assoc. f_equal.
    unfold of_instance. by rewrite (filter_app _ [r] rs).
Qed.

Lemma group_acc_is_Some (results : list LogResult) (m : gmap Z (list LogResult)) (k : Z) :
  is_Some
    (foldl (fun by_instance result =>
              <[instance result :=
                  (default [] (by_instance !! instance result) ++ [result])%list]>
                by_instance) m results !! k)
  <-> is_Some (m !! k) \/ exists r, r ∈ results /\ instance r = k.
Proof.
  revert m. induction results as [|r rs IH]; intros m; simpl.
  - split; [by left|]. intros [H|(r & Hr & _)]; [done|]. by apply elem_of_nil in Hr.
  - rewrite IH. rewrite lookup_insert_is_Some. split.
    + intros [[Hk|[_ Hk]]|(r' & Hr' & Hk)].
      * right. exists r. split; [by left|done].
      * by left.
      * right. exists r'. split; [by right|done].
    + intros [Hk|(r' & Hr' & Hk)].
      * destruct (decide (instance r = k)); [by left; left|by left; right].
      * apply elem_of_cons in Hr' as [->|Hr']; [by left; left|].
        right. by exists r'.
Qed.

(** The group of an instance holds its records, in the order of the
    list. *)
Lemma group_lookup (results : list LogResult) (k : Z) :
  default [] (group_by_instance results !! k) = of_instance k results.
Proof. unfold group_by_instance. by rewrite group_acc_lookup, lookup_empty. Qed.

(** The keys of the grouping are the instances that have a record. *)
Lemma group_is_Some (results : list LogResult) (k : Z) :
  is_Some (group_by_instance results !! k) <-> exists r, r ∈ results /\ instance r = k.
Proof.
  unfold group_by_instance. rewrite group_acc_is_Some, lookup_empty.
  split; [|by right]. intros [H|H]; [by destruct H|done].
Qed.

Lemma elem_of_sorted_keys (m : gmap Z (list LogResult)) (k : Z) :
  k ∈ sorted_keys m <-> is_Some (m !! k).
Proof.
  unfold sorted_keys. rewrite sorted_perm. change (map fst ?l) with (l.*1).
  rewrite list_elem_of_fmap. split.
  - intros ([k' v] & -> & Hin). apply elem_of_map_to_list in Hin. by exists v.
  - intros [v Hv]. exists (k, v). split; [done|]. by apply elem_of_map_to_list.
Qed.

Lemma NoDup_sorted_keys (m : gmap Z (list LogResult)) : NoDup (sorted_keys m).
Proof.
  unfold sorted_keys. rewrite sorted_perm. apply NoDup_fst_map_to_list.
Qed.

(** [sorted(by_instance.keys())] is strictly ascending. *)
Lemma sorted_keys_ascending (m : gmap Z (list LogResult)) :
  StronglySorted Z.lt (sorted_keys m).
Proof.
  pose proof (NoDup_sorted_keys m) as Hnd. unfold sorted_keys in *.
  pose proof (sorted_ascending Z.leb
                (fun x y => ltac:(lia)) (fun x y z => ltac:(lia))
                (map fst (map_to_list m))) as Hs.
  induction Hs as [|k l Hl IH Hk]; [constructor|].
  apply NoDup_cons in Hnd as [Hnotin Hnd]. constructor; [by apply IH|].
  rewrite Forall_forall in Hk |- *. intros x Hx.
  specialize (Hk x Hx). apply Z.leb_le in Hk.
  assert (k <> x) by (by intros ->). lia.
Qed.

End GroupFacts.

(** ** The report *)

Section ReportFacts.
Import Aggregator Samples.

(** The lines printed for one instance. *)
Lemma report_rows_cons (m : gmap Z (list LogResult)) (k : Z) (ks : list Z) :
  report_rows m (k :: ks)
  = (map (fun result =>
            Row k (repeat result) (success_trials result) (total_trials result)
                (success_rate result) (status_of result))
         (sorted repeat_le (default [] (m !! k)))
     ++ report_rows m ks)%list.
Proof. reflexivity. Qed.

Lemma repeat_le_total (x y : LogResult) :
  repeat_le x y = true \/ repeat_le y x = true.
Proof. unfold repeat_le. lia. Qed.

Lemma repeat_le_trans (x y z : LogResult) :
  repeat_le x y = true -> repeat_le y z = true -> repeat_le x z = true.
Proof. unfold repeat_le. lia. Qed.

(** The lines of an instance show its records. *)
Lemma instance_rows_perm (results : list LogResult) (k : Z) :
  map (fun result =>
         Row k (repeat result) (success_trials result) (total_trials result)
             (success_rate result) (status_of result))
      (sorted repeat_le (of_instance k results))
  ≡ₚ map row_of (of_instance k results).
Proof.
  rewrite (sorted_perm repeat_le (of_instance k results)).
  erewrite map_ext_in; [done|]. intros r Hr.
  by apply list_elem_of_In, list_elem_of_filter in Hr as [<- _].
Qed.

Lemma of_instance_cons_perm (k : Z) (ks : list Z) (rs : list LogResult) :
  k ∉ ks ->
  filter (fun r => instance r ∈ k :: ks) rs
  ≡ₚ of_instance k rs ++ filter (fun r => instance r ∈ ks) rs.
Proof.
  intros Hk. unfold of_instance. induction rs as [|r rs IH]; [done|].
  rewrite !filter_cons.
  destruct (decide (instance r = k)) as [E|E].
  - rewrite decide_True by (rewrite E; by left).
    rewrite decide_False by (by rewrite E). simpl. by rewrite IH.
  - destruct (decide (instance r ∈ ks)) as [Hin|Hin].
    + rewrite decide_True by (by right). rewrite IH.
      by rewrite Permutation_middle.
    + rewrite decide_False; [done|]. by intros [?|?]%elem_of_cons.
Qed.

(** The record lines are the lines of the records of the instances
    listed, each once. *)
Lemma report_rows_perm (results : list LogResult) (ks : list Z) :
  NoDup ks ->
  report_rows (group_by_instance results) ks
  ≡ₚ map row_of (filter (fun r => instance r ∈ ks) results).
Proof.
  induction 1 as [|k ks Hk Hnd IH].
  - replace (filter _ results) with (@nil LogResult); [done|].
    induction results as [|r rs IHrs]; [done|].
    rewrite filter_cons, decide_False; [done|]. apply not_elem_of_nil.
  - rewrite report_rows_cons, group_lookup, instance_rows_perm, IH.
    by rewrite of_instance_cons_perm, map_app.
Qed.

Lemma filter_all {A} (P : A -> Prop) `{!forall r, Decision (P r)}
    (rs : list A) :
  (forall r, r ∈ rs -> P r) -> filter P rs = rs.
Proof.
  induction rs as [|r rs IH]; [done|]. intros Hall.
  rewrite filter_cons, decide_True by (apply Hall; by left).
  f_equal. apply IH. intros r' Hr'. apply Hall. by right.
Qed.

(** Every kept record has its line, once. *)
Lemma report_rows_all (results : list LogResult) :
  report_rows (group_by_instance results) (sorted_keys (group_by_instance results))
  ≡ₚ map row_of results.
Proof.
  rewrite report_rows_perm by apply NoDup_sorted_keys.
  rewrite filter_all; [done|]. intros r Hr.
  apply elem_of_sorted_keys, group_is_Some. by exists r.
Qed.

Lemma row_keys_instance (results : list LogResult) (k : Z) (l : list LogResult) :
  row_keys (map (fun result =>
                   Row k (repeat result) (success_trials result) (total_trials result)
                       (success_rate result) (status_of result)) l)
  = map (fun r => (k, repeat r)) l.
Proof. induction l as [|r l IH]; [done|]. simpl. by rewrite <- IH. Qed.

Lemma row_keys_report_rows_fst (m : gmap Z (list LogResult)) (ks : list Z) (x : Z * Z) :
  x ∈ row_keys (report_rows m ks) -> x.1 ∈ ks.
Proof.
  induction ks as [|k ks IH]; [by intros ?%elem_of_nil|].
  rewrite report_rows_cons. unfold row_keys. rewrite omap_app.
  fold (row_keys (report_rows m ks)).
  intros [H|H]%elem_of_app.
  - change (omap row_key ?l) with (row_keys l) in H.
    rewrite (row_keys_instance []) in H.
    apply list_elem_of_fmap in H as (r & -> & _). by left.
  - right. by apply IH.
Qed.

(** The record lines ascend by instance and, within an instance, by
    repeat. *)
Lemma report_rows_ascending (m : gmap Z (list LogResult)) (ks : list Z) :
  StronglySorted Z.lt ks ->
  StronglySorted key_le (row_keys (report_rows m ks)).
Proof.
  induction 1 as [|k ks Hks IH Hk]; [constructor|].
  rewrite report_rows_cons. unfold row_keys. rewrite omap_app.
  change (omap row_key ?l) with (row_keys l).
  rewrite (row_keys_instance []).
  apply StronglySorted_app_2; [| |done].
  - intros x y (r & -> & _)%list_elem_of_fmap Hy%row_keys_report_rows_fst.
    left. simpl. rewrite Forall_forall in Hk. by apply Hk.
  - pose proof (sorted_ascending repeat_le repeat_le_total repeat_le_trans
                  (default [] (m !! k))) as Hs.
    induction Hs as [|r l Hl IHl Hr]; [constructor|]. simpl.
    constructor; [done|]. apply Forall_forall.
    intros x (r' & -> & Hr')%list_elem_of_fmap. right. simpl. split; [done|].
    rewrite Forall_forall in Hr. specialize (Hr r' Hr').
    unfold repeat_le in Hr. lia.
Qed.

Lemma rows_report_rows (m : gmap Z (list LogResult)) (ks : list Z) :
  rows (report_rows m ks) = report_rows m ks.
Proof.
  apply filter_all. intros l Hl.
  apply list_elem_of_In, in_flat_map in Hl as (k & _ & Hl).
  apply in_map_iff in Hl as (r & <- & _). by eexists.
Qed.

Lemma rows_instance_summaries (m : gmap Z (list LogResult)) (ks : list Z) :
  rows (instance_summaries m ks) = [].
Proof. induction ks as [|k ks IH]; [done|]. exact IH. Qed.

Lemma rows_other (l : line) (ls : list line) :
  row_key l = None -> rows (l :: ls) = rows ls.
Proof.
  intros H. unfold rows. rewrite filter_cons, decide_False; [done|].
  rewrite H. by intros [? ?].
Qed.

(** The lines of the report that show a record are those of the first
    loop. *)
Lemma rows_report (results : list LogResult) :
  rows (report results)
  = report_rows (group_by_instance results) (sorted_keys (group_by_instance results)).
Proof.
  unfold report. cbv zeta.
  set (m := group_by_instance results). set (ks := sorted_keys m).
  assert (forall l1 l2, rows (l1 ++ l2) = (rows l1 ++ rows l2)%list) as Happ
    by (intros; apply filter_app).
  rewrite !Happ, rows_report_rows, rows_instance_summaries.
  rewrite !rows_other by done. change (rows []) with (@nil line).
  by rewrite !app_nil_r.
Qed.

Lemma row_keys_rows (ls : list line) : row_keys (rows ls) = row_keys ls.
Proof.
  unfold row_keys, rows. induction ls as [|l ls IH]; [done|].
  assert (forall x xs, omap row_key (x :: xs)
                       = match row_key x with
                         | Some y => y :: omap row_key xs
                         | None => omap row_key xs
                         end) as Hcons by done.
  rewrite filter_cons, (Hcons l ls).
  destruct (decide (is_Some (row_key l))) as [[k Hk]|Hk].
  - by rewrite Hcons, Hk, IH.
  - destruct (row_key l) eqn:E; [|done]. destruct Hk. by eexists.
Qed.

Lemma row_keys_row_of (results : list LogResult) :
  row_keys (map row_of results) = map (fun r => (instance r, repeat r)) results.
Proof. induction results as [|r rs IH]; [done|]. simpl. by rewrite <- IH. Qed.

Lemma key_le_antisym : AntiSymm (=) key_le.
Proof.
  intros [a1 a2] [b1 b2]. unfold key_le. simpl. intros H1 H2. f_equal; lia.
Qed.







End ReportFacts.

(** ** The listing order of the directory *)

Section ListingFacts.
Import Aggregator.

Lemma path_le_total (p q : Path) : path_le p q = true \/ path_le q p = true.
Proof. apply String.leb_total. Qed.

Lemma path_le_trans (p q r : Path) :
  path_le p q = true -> path_le q r = true -> path_le p r = true.
Proof.
  unfold path_le. intros H1%Is_true_true H2%Is_true_true. apply Is_true_true.
  exact (transitivity (R := String.le) H1 H2).
Qed.

(** [sorted(log_dir.glob(...))] does not depend on the listing order. *)
Lemma sorted_glob_perm (fs fs' : FileSystem) :
  listdir fs' ≡ₚ listdir fs ->
  sorted path_le (glob fs') = sorted path_le (glob fs).
Proof.
  intros Hperm.
  apply (StronglySorted_unique_strong (fun p q => path_le p q = true)).
  - intros p q Hp Hq Hpq Hqp.
    rewrite sorted_perm in Hp, Hq. unfold glob in Hp, Hq.
    apply list_elem_of_In, in_map_iff in Hp as (n & <- & _).
    apply list_elem_of_In, in_map_iff in Hq as (n' & <- & _).
    f_equal. by apply String.leb_antisym.
  - apply sorted_ascending; [apply path_le_total|apply path_le_trans].
  - apply sorted_ascending; [apply path_le_total|apply path_le_trans].
  - rewrite !sorted_perm. unfold glob. by rewrite Hperm.
Qed.

Lemma parse_all_ext (fs fs' : FileSystem) (log_files : list Path) :
  (forall p, open_read fs' p = open_read fs p) ->
  parse_all fs' log_files = parse_all fs log_files.
Proof.
  intros Hread. induction log_files as [|p l IH]; [done|].
  rewrite !parse_all_cons, IH.
  unfold parse_log_file, parse_log_file_try. by rewrite Hread.
Qed.

(** The whole run does not depend on the listing order. *)
Lemma main_listing_order (fs fs' : FileSystem) :
  listdir fs' ≡ₚ listdir fs ->
  (forall p, open_read fs' p = open_read fs p) ->
  main fs' = main fs.
Proof.
  intros Hperm Hread. unfold main.
  by rewrite (sorted_glob_perm fs fs' Hperm), (parse_all_ext fs fs' _ Hread).
Qed.

End ListingFacts.

(** C7. Whatever the order of the kept records, the report shows each of
    them on one line; the lines ascend by instance and, within an instance,
    by repeat; the sequence of (instance, repeat) shown is the same for
    every order in which the same records are listed; and the whole run is
    the same for every order in which the directory lists its files. *)
Theorem report_order (results : list Aggregator.LogResult) :
  Samples.rows (Aggregator.report results) ≡ₚ map Samples.row_of results
  /\ StronglySorted Samples.key_le (Samples.row_keys (Aggregator.report results))
  /\ (forall results',
        results' ≡ₚ results ->
        Samples.row_keys (Aggregator.report results')
        = Samples.row_keys (Aggregator.report results))
  /\ (forall fs fs',
        Aggregator.listdir fs' ≡ₚ Aggregator.listdir fs ->
        (forall p, Aggregator.open_read fs' p = Aggregator.open_read fs p) ->
        Aggregator.main fs' = Aggregator.main fs).
Proof.
  assert (forall rs, StronglySorted Samples.key_le
                       (Samples.row_keys (Aggregator.report rs))) as Hsorted.
  { intros rs. rewrite <- row_keys_rows, rows_report.
    apply report_rows_ascending, sorted_keys_ascending. }
  assert (forall rs, Samples.row_keys (Aggregator.report rs)
                     ≡ₚ map (fun r => (Aggregator.instance r, Aggregator.repeat r)) rs)
    as Hkeys.
  { intros rs. rewrite <- row_keys_rows, rows_report, <- row_keys_row_of.
    unfold Samples.row_keys. by rewrite report_rows_all. }
  split; [|split; [|split]].
  - rewrite rows_report. apply report_rows_all.
  - apply Hsorted.
  - intros results' Hperm.
    apply (@StronglySorted_unique _ Samples.key_le key_le_antisym);
      [apply Hsorted..|].
    by rewrite !Hkeys, Hperm.
  - apply main_listing_order.
Qed.

Lemma report_order_witness :
  Samples.row_keys (Aggregator.report (reverse Samples.shuffled_records))
  = [(1, 0); (1, 1); (3, 0); (3, 1); (3, 2)].
Proof.
  destruct (report_order Samples.shuffled_records) as (_ & _ & Hindep & _).
  rewrite (Hindep (reverse Samples.shuffled_records)); [by vm_compute|].
  apply reverse_Permutation.
Defined.

(** C8. Every kept record has its line in the report, and the status shown
    on a record line is the success label exactly when the rate shown on it
    is greater than 0, and the failure label otherwise. *)
Theorem status_label (results : list Aggregator.LogResult) :
  (forall r, r ∈ results -> Samples.row_of r ∈ Aggregator.report results)
  /\ forall instance repeat success total rate status,
       Aggregator.Row instance repeat success total rate status
         ∈ Aggregator.report results ->
       (status = Aggregator.SUCCESS <-> (0 < rate)%Q)
       /\ (status = Aggregator.FAILED <-> ~ (0 < rate)%Q).
Proof.
  pose proof (rows_report results) as Hrows.
  pose proof (report_rows_all results) as Hperm. rewrite <- Hrows in Hperm.
  split.
  - intros r Hr.
    apply (list_elem_of_fmap_2 Samples.row_of) in Hr.
    change (Samples.row_of <$> results) with (map Samples.row_of results) in Hr.
    rewrite <- Hperm in Hr. unfold Samples.rows in Hr.
    by apply list_elem_of_filter in Hr as [_ Hr].
  - intros instance repeat success total rate status Hin.
    assert (Aggregator.Row instance repeat success total rate status
              ∈ Samples.rows (Aggregator.report results)) as Hrow.
    { apply list_elem_of_filter. split; [by eexists|done]. }
    rewrite Hperm in Hrow.
    apply list_elem_of_fmap in Hrow as (r & E & _).
    injection E as _ _ _ _ -> ->. unfold Aggregator.status_of.
    destruct (Qlt_le_dec 0 (Aggregator.success_rate r)) as [Hpos|Hnonpos].
    + by repeat split.
    + apply Qle_not_lt in Hnonpos. by repeat split.
Qed.

Lemma status_label_witness :
  Aggregator.Row 1 1 0 4 0 Aggregator.FAILED ∈ Aggregator.report Samples.shuffled_records
  /\ Aggregator.Row 3 2 1 4 25 Aggregator.SUCCESS ∈ Aggregator.report Samples.shuffled_records.
Proof.
  destruct (status_label Samples.shuffled_records) as [Hline _].
  split.
  - apply (Hline {| Aggregator.repeat := 1; Aggregator.instance := 1;
                    Aggregator.success_trials := 0; Aggregator.total_trials := 4;
                    Aggregator.success_rate := 0 |}).
    apply list_elem_of_lookup. by exists 1%nat.
  - apply (Hline {| Aggregator.repeat := 2; Aggregator.instance := 3;
                    Aggregator.success_trials := 1; Aggregator.total_trials := 4;
                    Aggregator.success_rate := 25 |}).
    apply list_elem_of_lookup. by exists 0%nat.
Defined.





(** * Further properties of the two scripts *)

(** ** What a kept record says about its file *)

Section KeptFacts.
Import Re Aggregator Samples.

(** A match of the file-name pattern lies in the name. *)
Lemma filename_match_inv (n : string) (m : list string) :
  search filename_re n = Some m ->
  exists pre a b post,
    m = [a; b]
    /\ n = pre +:+ "behavior_log_" +:+ a +:+ "_" +:+ b +:+ ".log" +:+ post.
Proof.
  intros (pre & s' & -> & H)%search_inv.
  unfold filename_re in H. cbn [rmatch] in H.
  destruct (lit_prefix "behavior_log_" s') as [s1|] eqn:E1; [|done].
  apply lit_prefix_inv in E1 as ->.
  apply greedy_star_inv in H as (a & rest & -> & Ha & H).
  destruct a as [|a0 a]; [done|].
  destruct (lit_prefix "_" rest) as [s2|] eqn:E2; [|done].
  apply lit_prefix_inv in E2 as ->.
  apply greedy_star_inv in H as (b & rest2 & -> & Hb & H).
  destruct b as [|b0 b]; [done|].
  destruct (lit_prefix ".log" rest2) as [post|] eqn:E3; [|done].
  apply lit_prefix_inv in E3 as ->. injection H as <-.
  by exists pre, (String a0 a), (String b0 b), post.
Qed.

(** A match of a marker pattern lies in the text. *)
Lemma marker_match_inv (label : string) (c : ascii -> bool) (s : string)
    (m : list string) :
  search (Seq (Lit label) (Seq (Star is_space) (Group (Plus c)))) s = Some m ->
  exists d, m = [d] /\ marked label d s.
Proof.
  intros (pre & s' & -> & H)%search_inv. cbn [rmatch] in H.
  destruct (lit_prefix label s') as [s1|] eqn:E1; [|done].
  apply lit_prefix_inv in E1 as ->.
  apply greedy_star_inv in H as (ws & rest & -> & Hws & H).
  apply greedy_star_inv in H as (d & post & -> & Hd & H).
  destruct d as [|d0 d]; [done|]. injection H as <-.
  exists (String d0 d). split; [done|]. by exists pre, ws, post.
Qed.

Lemma digits_value_nonneg (s : string) : 0 <= digits_value s.
Proof. unfold digits_value, Z.of_uint. destruct (NilEmpty.uint_of_string s); lia. Qed.

(** [float] of a text of digits and full stops is never negative. *)
Lemma float_nonneg (s : string) (q : Q) : float_ s = Ok q -> (0 <= q)%Q.
Proof.
  unfold float_. destruct (split_dot s) as [ip fp].
  destruct (_ && _); [|done]. intros [= <-]. rewrite Qred_correct.
  unfold Qle. simpl. pose proof (digits_value_nonneg (ip +:+ default "" fp)). lia.
Qed.

End KeptFacts.

(** The fields of a kept record are values of [int] and [float]. *)
Lemma parse_log_file_values (fs : Aggregator.FileSystem) (p : Aggregator.Path)
    (rec : Aggregator.LogResult) (e : list string) :
  Aggregator.parse_log_file fs p = (Some rec, e) ->
  exists a b ds dt dr,
    int_ a = Ok (Aggregator.repeat rec) /\ int_ b = Ok (Aggregator.instance rec)
    /\ int_ ds = Ok (Aggregator.success_trials rec)
    /\ int_ dt = Ok (Aggregator.total_trials rec)
    /\ float_ dr = Ok (Aggregator.success_rate rec).
Proof.
  unfold Aggregator.parse_log_file, Aggregator.parse_log_file_try.
  destruct (Aggregator.open_read fs p) as [content|ex];
    rewrite ?bind_Ok, ?bind_Raise; [|done].
  destruct (Re.search Aggregator.filename_re _) as [m|]; [|done].
  destruct (int_ (Re.group m 1)) as [r|] eqn:Ea; rewrite ?bind_Ok, ?bind_Raise; [|done].
  destruct (int_ (Re.group m 2)) as [i|] eqn:Eb; rewrite ?bind_Ok, ?bind_Raise; [|done].
  destruct (Re.search Aggregator.success_trials_re content) as [sm|]; [|done].
  destruct (Re.search Aggregator.total_trials_re content) as [tm|]; [|done].
  destruct (Re.search Aggregator.success_rate_re content) as [rm|]; [|done].
  destruct (int_ (Re.group sm 1)) as [s|] eqn:Es; rewrite ?bind_Ok, ?bind_Raise; [|done].
  destruct (int_ (Re.group tm 1)) as [t|] eqn:Et; rewrite ?bind_Ok, ?bind_Raise; [|done].
  destruct (float_ (Re.group rm 1)) as [q|] eqn:Er; rewrite ?bind_Ok, ?bind_Raise; [|done].
  intros [= <- <-]. by do 5 eexists.
Qed.

(** X1. Every field of a kept record stands in its file: the name
    contains [behavior_log_a_b.log] for digit texts [a] and [b] whose
    values are the repeat and the instance, and the text contains each
    marker label followed by white space and the text whose value is the
    field.  Nothing is written to the error stream for that file. *)
Theorem kept_record_from_file (fs : Aggregator.FileSystem) (p : Aggregator.Path)
    (rec : Aggregator.LogResult) (e : list string) :
  Aggregator.parse_log_file fs p = (Some rec, e) ->
  e = []
  /\ exists content a b ds dt dr,
       Aggregator.open_read fs p = Ok content
       /\ (exists pre post,
            Aggregator.name p
            = pre +:+ "behavior_log_" +:+ a +:+ "_" +:+ b +:+ ".log" +:+ post)
       /\ int_ a = Ok (Aggregator.repeat rec)
       /\ int_ b = Ok (Aggregator.instance rec)
       /\ Samples.marked "Total success trials:" ds content
       /\ int_ ds = Ok (Aggregator.success_trials rec)
       /\ Samples.marked "Total trials:" dt content
       /\ int_ dt = Ok (Aggregator.total_trials rec)
       /\ Samples.marked "Success rate:" dr content
       /\ float_ dr = Ok (Aggregator.success_rate rec).
Proof.
  unfold Aggregator.parse_log_file, Aggregator.parse_log_file_try.
  destruct (Aggregator.open_read fs p) as [content|ex];
    rewrite ?bind_Ok, ?bind_Raise; [|done].
  destruct (Re.search Aggregator.filename_re _) as [m|] eqn:Em; [|done].
  apply filename_match_inv in Em as (pre & a & b & post & -> & Hname).
  change (Re.group [a; b] 1) with a. change (Re.group [a; b] 2) with b.
  destruct (int_ a) as [r|] eqn:Ea; rewrite ?bind_Ok, ?bind_Raise; [|done].
  destruct (int_ b) as [i|] eqn:Eb; rewrite ?bind_Ok, ?bind_Raise; [|done].
  destruct (Re.search Aggregator.success_trials_re content) as [sm|] eqn:Es; [|done].
  destruct (Re.search Aggregator.total_trials_re content) as [tm|] eqn:Et; [|done].
  destruct (Re.search Aggregator.success_rate_re content) as [rm|] eqn:Er; [|done].
  apply marker_match_inv in Es as (ds & -> & Hs).
  apply marker_match_inv in Et as (dt & -> & Ht).
  apply marker_match_inv in Er as (dr & -> & Hr).
  change (Re.group [ds] 1) with ds. change (Re.group [dt] 1) with dt.
  change (Re.group [dr] 1) with dr.
  destruct (int_ ds) as [s|] eqn:Eds; rewrite ?bind_Ok, ?bind_Raise; [|done].
  destruct (int_ dt) as [t|] eqn:Edt; rewrite ?bind_Ok, ?bind_Raise; [|done].
  destruct (float_ dr) as [q|] eqn:Edr; rewrite ?bind_Ok, ?bind_Raise; [|done].
  intros [= <- <-]. split; [done|].
  exists content, a, b, ds, dt, dr. simpl. repeat split; try done.
  by exists pre, post.
Qed.

Lemma kept_record_from_file_witness :
  exists a b, int_ a = Ok 1 /\ int_ b = Ok 3
    /\ exists pre post,
         "behavior_log_1_3.log" = pre +:+ "behavior_log_" +:+ a +:+ "_" +:+ b +:+ ".log" +:+ post.
Proof.
  destruct (kept_record_from_file Samples.sample_fs
              (Samples.in_log_dir "behavior_log_1_3.log")
              {| Aggregator.repeat := 1; Aggregator.instance := 3;
                 Aggregator.success_trials := 1; Aggregator.total_trials := 2;
                 Aggregator.success_rate := 50 |} [] eq_refl)
    as (_ & content & a & b & ds & dt & dr & _ & Hname & Ha & Hb & _).
  by exists a, b.
Defined.

(** X2. The numbers of a kept record are never negative: the repeat, the
    instance, both counts and the rate.  So its line carries the failure
    label exactly when its rate is zero. *)
Theorem kept_record_nonneg (fs : Aggregator.FileSystem) (p : Aggregator.Path)
    (rec : Aggregator.LogResult) (e : list string) :
  Aggregator.parse_log_file fs p = (Some rec, e) ->
  0 <= Aggregator.repeat rec /\ 0 <= Aggregator.instance rec
  /\ 0 <= Aggregator.success_trials rec /\ 0 <= Aggregator.total_trials rec
  /\ (0 <= Aggregator.success_rate rec)%Q
  /\ (Aggregator.status_of rec = Aggregator.FAILED
      <-> (Aggregator.success_rate rec == 0)%Q).
Proof.
  intros Hparse.
  destruct (parse_log_file_nonneg fs p rec e Hparse) as [Hs Ht].
  destruct (parse_log_file_values fs p rec e Hparse)
    as (a & b & ds & dt & dr & Ha & Hb & _ & _ & Hr).
  assert (forall x z, int_ x = Ok z -> 0 <= z) as Hint.
  { intros x z. unfold int_. destruct (NilZero.uint_of_string x); [|done].
    intros [= <-]. unfold Z.of_uint. lia. }
  apply float_nonneg in Hr.
  repeat split; eauto.
  - unfold Aggregator.status_of.
    destruct (Qlt_le_dec 0 (Aggregator.success_rate rec)) as [Hpos|Hle]; [done|].
    intros _. by apply Qle_antisym.
  - intros Hzero. unfold Aggregator.status_of.
    destruct (Qlt_le_dec 0 (Aggregator.success_rate rec)) as [Hpos|Hle]; [|done].
    rewrite Hzero in Hpos. by apply Qlt_irrefl in Hpos.
Qed.

Lemma kept_record_nonneg_witness :
  Aggregator.status_of
    {| Aggregator.repeat := 1; Aggregator.instance := 1;
       Aggregator.success_trials := 0; Aggregator.total_trials := 0;
       Aggregator.success_rate := 0 |} = Aggregator.FAILED.
Proof.
  destruct (kept_record_nonneg Samples.sample_fs
              (Samples.in_log_dir "behavior_log_1_1.log")
              {| Aggregator.repeat := 1; Aggregator.instance := 1;
                 Aggregator.success_trials := 0; Aggregator.total_trials := 0;
                 Aggregator.success_rate := 0 |} [] eq_refl)
    as (_ & _ & _ & _ & _ & Hstatus).
  by apply Hstatus.
Defined.

(** ** Reading back a log text *)

Section ReadBackFacts.
Import Re Aggregator Samples.

Lemma digit_not_space (a : ascii) : is_digit a = true -> is_space a = false.
Proof. destruct a as [[] [] [] [] [] [] [] []]; by vm_compute. Qed.

Lemma rate_char_not_space (a : ascii) : rate_char a = true -> is_space a = false.
Proof. destruct a as [[] [] [] [] [] [] [] []]; by vm_compute. Qed.

(** What [int] accepts is a non-empty digit text. *)
Lemma uint_of_string_digits (s : string) (d : Decimal.uint) :
  NilEmpty.uint_of_string s = Some d -> all_chars is_digit s = true.
Proof.
  revert d. induction s as [|a s IH]; intros d; [done|]. simpl.
  destruct (NilEmpty.uint_of_string s) as [d'|]; simpl.
  - rewrite (IH d' eq_refl), andb_true_r.
    destruct a as [[] [] [] [] [] [] [] []]; by vm_compute.
  - by destruct a as [[] [] [] [] [] [] [] []].
Qed.

Lemma int_Ok_digits (s : string) (z : Z) :
  int_ s = Ok z -> all_chars is_digit s = true /\ s <> "".
Proof.
  unfold int_, NilZero.uint_of_string. destruct s as [|a s]; [done|].
  destruct (NilEmpty.uint_of_string (String a s)) as [d|] eqn:E; [|done].
  intros _. split; [by eapply uint_of_string_digits|done].
Qed.

Lemma split_dot_spec (s ip : string) (fp : option string) :
  split_dot s = (ip, fp) ->
  s = ip +:+ match fp with Some f => "." +:+ f | None => "" end
  /\ (all_chars is_digit ip = true -> all_chars rate_char ip = true).
Proof.
  revert ip. induction s as [|a s IH]; intros ip; simpl.
  - by intros [= <- <-].
  - destruct (Ascii.eqb a ".") eqn:Ea.
    + apply Ascii.eqb_eq in Ea as ->. by intros [= <- <-].
    + destruct (split_dot s) as [ip' fp'] eqn:E. intros [= <- <-].
      destruct (IH ip' eq_refl) as [-> Hip]. split; [done|]. simpl.
      intros [Ha Hd]%andb_prop. rewrite Hip by done.
      unfold rate_char. by rewrite Ha.
Qed.

(** What [float] accepts is a non-empty text of digits and full stops. *)
Lemma float_Ok_chars (s : string) (q : Q) :
  float_ s = Ok q -> all_chars rate_char s = true /\ s <> "".
Proof.
  unfold float_. destruct (split_dot s) as [ip fp] eqn:E.
  destruct (split_dot_spec s ip fp E) as [-> Hip].
  destruct (all_chars is_digit ip) eqn:Ei; [|done].
  destruct (all_chars is_digit (default "" fp)) eqn:Ef; [|done].
  destruct (String.eqb _ "") eqn:Ee; [done|]. intros _.
  apply String.eqb_neq in Ee. rewrite all_chars_app, Hip by done.
  assert (forall f, all_chars is_digit f = true -> all_chars rate_char f = true)
    as Hdigits.
  { induction f as [|x f IH]; [done|]. simpl.
    intros [Hx Hf]%andb_prop. unfold rate_char at 1. by rewrite Hx, IH. }
  destruct fp as [f|]; cbn [default] in *.
  - split; [|by destruct ip]. rewrite app_cons. cbn [all_chars String.append].
    change ("" +:+ f) with f. by rewrite Hdigits.
  - split; [done|]. intros Hnil. apply Ee. by rewrite Hnil.
Qed.

(** The marker at the head of the text is the match. *)
Lemma marker_at_head (label : string) (c : ascii -> bool) (d rest : string) :
  all_chars c d = true -> d <> "" -> stops c rest -> stops is_space d ->
  search (Seq (Lit label) (Seq (Star is_space) (Group (Plus c))))
         ((label +:+ " " +:+ d) +:+ rest)
  = Some [d].
Proof.
  intros Hd Hne Hrest Hsp. rewrite !string_app_assoc.
  apply search_head. cbn [rmatch]. rewrite lit_prefix_app.
  apply greedy_star_max; [done| |].
  - destruct d as [|x d]; [done|]. exact Hsp.
  - apply greedy_star_max; [done..|]. by destruct d.
Qed.

Lemma lit_prefix_mono (label b s rest : string) :
  lit_prefix label b = Some rest -> lit_prefix label (b +:+ s) = Some (rest +:+ s).
Proof.
  revert b. induction label as [|x label IH]; intros b; simpl.
  - destruct b; by intros [= <-].
  - destruct b as [|y b]; [done|]. rewrite app_cons.
    destruct (Ascii.eqb x y); [apply IH|done].
Qed.

(** A label without characters of class [c] does not occur across or
    inside a tail of class [c]. *)
Lemma occursb_class_tail (label : string) (c : ascii -> bool) (pre ds : string) :
  label <> "" -> all_chars (fun a => negb (c a)) label = true ->
  all_chars c ds = true ->
  occursb label (pre +:+ ds) = occursb label pre.
Proof.
  intros Hne Hlabel Hds.
  assert (forall b, lit_prefix label b = None -> lit_prefix label (b +:+ ds) = None)
    as Hnone.
  { intros b Hb. destruct (lit_prefix label (b +:+ ds)) eqn:E; [|done]. exfalso.
    destruct (lit_prefix_split label b ds Hb) as (x & w & -> & Hw); [by rewrite E|].
    rewrite all_chars_app in Hlabel. apply andb_prop in Hlabel as [_ Hx].
    simpl in Hx. apply andb_prop in Hx as [Hx _].
    destruct ds as [|y ds]; [done|]. simpl in Hw, Hds.
    apply andb_prop in Hds as [Hy _].
    destruct (Ascii.eqb x y) eqn:Exy; [|done].
    apply Ascii.eqb_eq in Exy as ->. by rewrite Hy in Hx. }
  induction pre as [|a pre IH].
  - change ("" +:+ ds) with ds. destruct label as [|x label]; [done|].
    clear Hnone. cbn [occursb lit_prefix].
    cbn [all_chars] in Hlabel. apply andb_prop in Hlabel as [Hx _].
    induction ds as [|y ds IHds]; [done|].
    cbn [all_chars] in Hds. apply andb_prop in Hds as [Hy Hd].
    cbn [occursb lit_prefix].
    destruct (Ascii.eqb x y) eqn:Exy; [|by apply IHds].
    apply Ascii.eqb_eq in Exy as ->. by rewrite Hy in Hx.
  - rewrite app_cons. cbn [occursb]. rewrite <- app_cons.
    destruct (lit_prefix label (String a pre)) eqn:E.
    + by rewrite (lit_prefix_mono _ _ ds _ E).
    + by rewrite (Hnone _ E).
Qed.

Lemma log_text_app (a b c rest : string) :
  log_text a b c +:+ rest
  = ("Total success trials:" +:+ " " +:+ a) +:+ nl
    +:+ ("Total trials:" +:+ " " +:+ b) +:+ nl
    +:+ ("Success rate:" +:+ " " +:+ c) +:+ nl +:+ rest.
Proof. unfold log_text. cbn [unlines]. by rewrite !string_app_assoc. Qed.

Lemma stops_space (c : ascii -> bool) (d : string) :
  (forall a, c a = true -> is_space a = false) ->
  all_chars c d = true -> stops is_space d.
Proof.
  intros Hc. destruct d as [|a d]; [done|]. simpl.
  intros [Ha _]%andb_prop. by apply Hc.
Qed.

(** The label of a marker does not occur in the line of another marker
    with a digit text. *)
Lemma other_marker_line (label pre d : string) :
  label <> "" -> all_chars (fun a => negb (is_digit a)) label = true ->
  occursb label pre = false -> all_chars is_digit d = true ->
  occursb label (pre +:+ d) = false.
Proof. intros Hne Hlabel Hpre Hd. by rewrite (occursb_class_tail label is_digit). Qed.

End ReadBackFacts.

(** X3. Reading back: a readable log named after the cell [(r, i)] whose
    text has, after lines without marker label, the three marker lines
    with a digit text [sd] for the successes, a digit text [td] for the
    totals and a rate text [rd] that [float] accepts, and then anything,
    parses to the record of [(r, i)] with the values of [sd], [td] and
    [rd], and nothing is written to the error stream. *)
Theorem parse_log_file_reads_back (fs : Aggregator.FileSystem) (p : Aggregator.Path)
    (r i s t : Z) (q : Q) (sd td rd : string) (before : list string) (after : string) :
  Aggregator.name p = Runner.log_name r i -> 0 <= r -> 0 <= i ->
  int_ sd = Ok s -> int_ td = Ok t -> float_ rd = Ok q ->
  Forall Samples.plain_line before ->
  Aggregator.open_read fs p
  = Ok (Samples.unlines before +:+ Samples.log_text sd td rd +:+ after) ->
  Aggregator.parse_log_file fs p
  = (Some {| Aggregator.repeat := r; Aggregator.instance := i;
             Aggregator.success_trials := s; Aggregator.total_trials := t;
             Aggregator.success_rate := q |}, []).
Proof.
  intros Hname Hr Hi Hs Ht Hq Hbefore Hread.
  destruct (int_Ok_digits sd s Hs) as [Hsd Hsd'].
  destruct (int_Ok_digits td t Ht) as [Htd Htd'].
  destruct (float_Ok_chars rd q Hq) as [Hrd Hrd'].
  assert (forall k label, Samples.labels !! k = Some label ->
                          Forall (fun l => Samples.occursb label l = false) before)
    as Hplain.
  { intros k label Hlabel. eapply Forall_impl; [exact Hbefore|].
    intros l Hl. unfold Samples.plain_line in Hl.
    rewrite Forall_forall in Hl. apply Hl. by eapply list_elem_of_lookup_2. }
  unfold Aggregator.parse_log_file, Aggregator.parse_log_file_try.
  rewrite Hread, Hname, bind_Ok, filename_roundtrip by done.
  change (Re.group [str r; str i] 1) with (str r).
  change (Re.group [str r; str i] 2) with (str i).
  rewrite !int_str, !bind_Ok by done. rewrite log_text_app.
  unfold Aggregator.success_trials_re, Aggregator.total_trials_re,
    Aggregator.success_rate_re.
  rewrite (marker_skip_lines "Total success trials:")
    by (reflexivity || exact (Hplain 0%nat _ eq_refl)).
  rewrite (marker_skip_lines "Total trials:")
    by (reflexivity || exact (Hplain 1%nat _ eq_refl)).
  rewrite (marker_skip_lines "Success rate:")
    by (reflexivity || exact (Hplain 2%nat _ eq_refl)).
  rewrite (marker_at_head "Total success trials:" is_digit sd)
    by (done || (apply (stops_space is_digit); [apply digit_not_space|done])).
  rewrite (marker_not_in_line "Total trials:")
    by (reflexivity || by apply (other_marker_line _ "Total success trials: ")).
  rewrite (marker_at_head "Total trials:" is_digit td)
    by (done || (apply (stops_space is_digit); [apply digit_not_space|done])).
  rewrite (marker_not_in_line "Success rate:")
    by (reflexivity || by apply (other_marker_line _ "Total success trials: ")).
  rewrite (marker_not_in_line "Success rate:")
    by (reflexivity || by apply (other_marker_line _ "Total trials: ")).
  change (fun a => is_digit a || Ascii.eqb a ".") with Samples.rate_char.
  rewrite (marker_at_head "Success rate:" Samples.rate_char rd)
    by (done || (apply (stops_space Samples.rate_char);
                 [apply rate_char_not_space|done])).
  change (Re.group [sd] 1) with sd. change (Re.group [td] 1) with td.
  change (Re.group [rd] 1) with rd.
  by rewrite Hs, Ht, Hq, !bind_Ok.
Qed.

Lemma parse_log_file_reads_back_witness :
  Aggregator.parse_log_file
    (Samples.files_fs
       [("behavior_log_3_12.log",
         Ok (Samples.unlines ["Episode 1: success"]
             +:+ Samples.log_text "007" "10" "70." +:+ "bye"))])
    (Samples.in_log_dir "behavior_log_3_12.log")
  = (Some {| Aggregator.repeat := 3; Aggregator.instance := 12;
             Aggregator.success_trials := 7; Aggregator.total_trials := 10;
             Aggregator.success_rate := 70 |}, []).
Proof.
  apply (parse_log_file_reads_back _ _ 3 12 7 10 70 "007" "10" "70."
           ["Episode 1: success"] "bye");
    try reflexivity; try lia.
  repeat constructor.
Defined.

(** ** Names and rates at the edge of the convention *)

Section EdgeFacts.
Import Re Aggregator Samples.

Lemma zeros_digits (n : nat) : all_chars is_digit (zeros n) = true.
Proof. induction n as [|n IH]; [done|]. exact IH. Qed.

Lemma uint_of_string_zeros (n : nat) (s : string) (d : Decimal.uint) :
  NilEmpty.uint_of_string s = Some d ->
  exists d', NilEmpty.uint_of_string (zeros n +:+ s) = Some d'
             /\ Z.of_uint d' = Z.of_uint d.
Proof.
  intros Hs. induction n as [|n (d' & Hd' & Hv)]; [by exists d|].
  exists (Decimal.D0 d'). split; [|done].
  change (zeros (S n) +:+ s) with (String "0" (zeros n +:+ s)).
  cbn [NilEmpty.uint_of_string]. by rewrite Hd'.
Qed.

(** [int] drops leading zeros. *)
Lemma int_zeros (n : nat) (z : Z) : 0 <= z -> int_ (zeros n +:+ str z) = Ok z.
Proof.
  intros Hz. pose proof (int_str z Hz) as Hint. unfold int_ in *.
  destruct (NilZero.uint_of_string (str z)) as [d|] eqn:E; [|done].
  injection Hint as Hd. unfold NilZero.uint_of_string in *.
  destruct (str z) as [|a sz] eqn:Es; [done|]. rewrite <- Es in *.
  destruct (uint_of_string_zeros n _ _ E) as (d' & Hd' & Hv).
  destruct (zeros n +:+ str z) eqn:Ezs.
  - destruct n; [by rewrite Es in Ezs|done].
  - rewrite Hd'. by rewrite Hv, Hd.
Qed.

(** A name of the convention with any digit texts. *)
Lemma filename_digits (a b : string) :
  all_chars is_digit a = true -> a <> "" ->
  all_chars is_digit b = true -> b <> "" ->
  search filename_re ("behavior_log_" +:+ a +:+ "_" +:+ b +:+ ".log") = Some [a; b].
Proof.
  intros Ha Ha' Hb Hb'. apply search_head. unfold filename_re.
  cbn [rmatch]. rewrite lit_prefix_app.
  apply greedy_star_max; [done..|]. destruct a as [|a0 a]; [done|].
  change (lit_prefix "_" ("_" +:+ ?x)) with (Some x). cbv beta iota.
  apply greedy_star_max; [done..|]. by destruct b.
Qed.




End EdgeFacts.

(** X4. A name whose numbers are padded with zeros names the same cell:
    [behavior_log_{0..0 r}_{0..0 i}.log] matches the file-name pattern
    with the padded texts as groups, [int] gives [r] and [i] for them, and
    every record parsed from a file of that name carries [(r, i)].  So the
    cell of a record does not determine the name of its file. *)
Theorem padded_name_same_cell (r i : Z) (n m : nat) :
  0 <= r -> 0 <= i ->
  let a := Samples.zeros n +:+ str r in
  let b := Samples.zeros m +:+ str i in
  let name := "behavior_log_" +:+ a +:+ "_" +:+ b +:+ ".log" in
  Re.search Aggregator.filename_re name = Some [a; b]
  /\ int_ a = Ok r /\ int_ b = Ok i
  /\ forall fs dir rec e,
       Aggregator.parse_log_file fs
         {| Aggregator.parent := dir; Aggregator.name := name |} = (Some rec, e) ->
       Aggregator.repeat rec = r /\ Aggregator.instance rec = i.
Proof.
  intros Hr Hi a b name.
  assert (forall k z, 0 <= z ->
            all_chars is_digit (Samples.zeros k +:+ str z) = true
            /\ Samples.zeros k +:+ str z <> "") as Hdigits.
  { intros k z [Hz Hz']%str_nonneg. split.
    - by rewrite all_chars_app, zeros_digits, Hz.
    - destruct k; [done|]. by change (Samples.zeros (S k) +:+ str z)
        with (String "0" (Samples.zeros k +:+ str z)). }
  destruct (Hdigits n r Hr) as [Ha Ha']. destruct (Hdigits m i Hi) as [Hb Hb'].
  assert (Re.search Aggregator.filename_re name = Some [a; b]) as Hname
    by by apply filename_digits.
  split; [done|]. split; [by apply int_zeros|]. split; [by apply int_zeros|].
  intros fs dir rec e.
  unfold Aggregator.parse_log_file, Aggregator.parse_log_file_try.
  destruct (Aggregator.open_read fs _) as [content|ex];
    rewrite ?bind_Ok, ?bind_Raise; [|done].
  cbn [Aggregator.name]. rewrite Hname.
  change (Re.group [a; b] 1) with a. change (Re.group [a; b] 2) with b.
  unfold a, b. rewrite !int_zeros, !bind_Ok by done.
  destruct (Re.search Aggregator.success_trials_re content) as [sm|]; [|done].
  destruct (Re.search Aggregator.total_trials_re content) as [tm|]; [|done].
  destruct (Re.search Aggregator.success_rate_re content) as [rm|]; [|done].
  step_ok (int_ (Re.group sm 1)). step_ok (int_ (Re.group tm 1)).
  step_ok (float_ (Re.group rm 1)).
  by intros [= <- <-].
Qed.

Lemma padded_name_same_cell_witness :
  Re.search Aggregator.filename_re "behavior_log_003_012.log" = Some ["003"; "012"]
  /\ int_ "003" = Ok 3 /\ int_ "012" = Ok 12.
Proof.
  destruct (padded_name_same_cell 3 12 2 1) as (Hname & Ha & Hb & _); [lia..|].
  done.
Defined.



(** ** The scan as a whole *)

Section DirectoryFacts.
Import Re Aggregator Samples.

(** The parsing loop keeps the results and the diagnostics in the order of
    the files. *)
Lemma parse_all_map (fs : FileSystem) (log_files : list Path) :
  parse_all fs log_files
  = (omap (fun p => (parse_log_file fs p).1) log_files,
     flat_map (fun p => (parse_log_file fs p).2) log_files).
Proof.
  induction log_files as [|p l IH]; [done|].
  rewrite parse_all_cons, IH. cbn [omap list_omap flat_map fst snd].
  by destruct (parse_log_file fs p) as [[r|] e].
Qed.

Lemma parse_all_ext_in (fs fs' : FileSystem) (log_files : list Path) :
  (forall p, p ∈ log_files -> open_read fs' p = open_read fs p) ->
  parse_all fs' log_files = parse_all fs log_files.
Proof.
  induction log_files as [|p l IH]; intros Hread; [done|].
  rewrite !parse_all_cons, IH by (intros q Hq; apply Hread; by right).
  unfold parse_log_file, parse_log_file_try.
  by rewrite (Hread p) by by left.
Qed.

(** The sorted paths of a set of names do not depend on the order of the
    names. *)
Lemma sorted_paths_perm (ns ns' : list string) :
  ns' ≡ₚ ns ->
  sorted path_le (map (Build_Path log_dir) ns')
  = sorted path_le (map (Build_Path log_dir) ns).
Proof.
  intros Hperm.
  apply (StronglySorted_unique_strong (fun p q => path_le p q = true)).
  - intros p q Hp Hq Hpq Hqp. rewrite sorted_perm in Hp, Hq.
    apply list_elem_of_In, in_map_iff in Hp as (n & <- & _).
    apply list_elem_of_In, in_map_iff in Hq as (n' & <- & _).
    f_equal. by apply String.leb_antisym.
  - apply sorted_ascending; [apply path_le_total|apply path_le_trans].
  - apply sorted_ascending; [apply path_le_total|apply path_le_trans].
  - rewrite !sorted_perm. by rewrite Hperm.
Qed.

Lemma ends_with_app (suf a : string) : ends_with suf (a +:+ suf) = true.
Proof.
  induction a as [|x a IH].
  - change ("" +:+ suf) with suf.
    destruct suf; cbn [ends_with]; by rewrite String.eqb_refl.
  - rewrite app_cons. cbn [ends_with]. rewrite IH. apply orb_true_r.
Qed.




Lemma filter_none {A} (P : A -> Prop) `{!forall x, Decision (P x)} (l : list A) :
  (forall x, x ∈ l -> ~ P x) -> filter P l = [].
Proof.
  induction l as [|x l IH]; [done|]. intros Hall.
  rewrite filter_cons, decide_False by (apply Hall; by left).
  apply IH. intros y Hy. apply Hall. by right.
Qed.

End DirectoryFacts.

(** X6. The parsing loop handles the files one by one and in order: the
    records kept are those of the files in file order, the diagnostics are
    those of the files in file order, and no file gives both a record and
    a diagnostic, nor more than one line. *)
Theorem parse_all_in_order (fs : Aggregator.FileSystem)
    (log_files : list Aggregator.Path) :
  Aggregator.parse_all fs log_files
  = (omap (fun p => (Aggregator.parse_log_file fs p).1) log_files,
     flat_map (fun p => (Aggregator.parse_log_file fs p).2) log_files)
  /\ (forall p, ((Aggregator.parse_log_file fs p).1 = None
                 \/ (Aggregator.parse_log_file fs p).2 = [])
                /\ (length (Aggregator.parse_log_file fs p).2 <= 1)%nat)
  /\ (length (Aggregator.parse_all fs log_files).1
      + length (Aggregator.parse_all fs log_files).2 <= length log_files)%nat.
Proof.
  assert (forall p, ((Aggregator.parse_log_file fs p).1 = None
                     \/ (Aggregator.parse_log_file fs p).2 = [])
                    /\ (length (Aggregator.parse_log_file fs p).2 <= 1)%nat) as Hone.
  { intros p. unfold Aggregator.parse_log_file.
    destruct (Aggregator.parse_log_file_try fs p); simpl; split; auto. }
  split; [apply parse_all_map|]. split; [done|].
  induction log_files as [|p l IH]; [done|].
  rewrite parse_all_cons. cbn [fst snd]. rewrite !length_app.
  destruct (Hone p) as [[Hnone|Hnil] Hlen].
  - rewrite Hnone. simpl in *. lia.
  - rewrite Hnil. destruct (Aggregator.parse_log_file fs p).1; simpl in *; lia.
Qed.

(** X7. The aggregator looks at nothing but the files its glob selects:
    two directories with the same selected names, in any order, and the
    same content for them give the same run, whatever else they hold and
    whatever any other path would give. *)
Theorem main_ignores_other_files (fs fs' : Aggregator.FileSystem) :
  filter (fun n => Aggregator.glob_match n = true) (Aggregator.listdir fs')
  ≡ₚ filter (fun n => Aggregator.glob_match n = true) (Aggregator.listdir fs) ->
  (forall n, n ∈ Aggregator.listdir fs -> Aggregator.glob_match n = true ->
             Aggregator.open_read fs' (Samples.in_log_dir n)
             = Aggregator.open_read fs (Samples.in_log_dir n)) ->
  Aggregator.main fs' = Aggregator.main fs.
Proof.
  intros Hperm Hread. unfold Aggregator.main, Aggregator.glob.
  rewrite (sorted_paths_perm _ _ Hperm).
  rewrite (parse_all_ext_in fs fs'); [done|].
  intros p Hp. rewrite sorted_perm in Hp.
  apply list_elem_of_In, in_map_iff in Hp as (n & <- & Hn).
  apply list_elem_of_In, list_elem_of_filter in Hn as [Hglob Hn].
  by apply Hread.
Qed.

Lemma main_ignores_other_files_witness :
  Aggregator.main
    (Samples.files_fs [ ("behavior_log_0_1.log", Ok (Samples.log_text "5" "10" "50.00"));
                        ("notes.txt", Ok "Total trials: 7") ])
  = Aggregator.main
      (Samples.files_fs [ ("behavior_log_0_1.log", Ok (Samples.log_text "5" "10" "50.00")) ]).
Proof.
  apply main_ignores_other_files; [done|].
  intros n Hn Hglob. apply list_elem_of_singleton in Hn as ->. reflexivity.
Defined.



(** ** The rollups *)

Section RollupFacts.
Import Aggregator Samples.





End RollupFacts.





(** ** Records with the same instance and repeat *)

Section TieFacts.
Import Aggregator Samples.

(** The sort by repeat is stable: the records of one repeat keep their
    order. *)
Lemma insert_sorted_same_repeat (r : Z) (x : LogResult) (l : list LogResult) :
  filter (fun y => repeat y = r) (insert_sorted repeat_le x l)
  = filter (fun y => repeat y = r) (x :: l).
Proof.
  induction l as [|y l IH]; [done|]. cbn [insert_sorted].
  destruct (repeat_le x y) eqn:E; [done|].
  unfold repeat_le in E. apply Z.leb_gt in E.
  rewrite (filter_cons _ y), IH, !(filter_cons _ x), (filter_cons _ y).
  destruct (decide (repeat x = r)), (decide (repeat y = r)); try done. lia.
Qed.

Lemma sorted_same_repeat (r : Z) (l : list LogResult) :
  filter (fun y => repeat y = r) (sorted repeat_le l)
  = filter (fun y => repeat y = r) l.
Proof.
  induction l as [|x l IH]; [done|]. cbn [sorted foldr].
  fold (sorted repeat_le l). rewrite insert_sorted_same_repeat.
  by rewrite !(filter_cons _ x), IH.
Qed.

(** The lines of one instance that show a given cell. *)
Lemma instance_rows_of_cell (k i r : Z) (l : list LogResult) :
  filter (fun x => row_key x = Some (i, r))
    (map (fun result =>
            Row k (repeat result) (success_trials result) (total_trials result)
                (success_rate result) (status_of result)) l)
  = if decide (k = i)
    then map (fun result =>
                Row k (repeat result) (success_trials result) (total_trials result)
                    (success_rate result) (status_of result))
             (filter (fun y => repeat y = r) l)
    else [].
Proof.
  induction l as [|x l IH]; [by case_decide|].
  cbn [map]. rewrite !filter_cons, IH. cbn [row_key].
  destruct (decide (Some (k, repeat x) = Some (i, r))) as [[= -> Hr]|Hne].
  - by rewrite !decide_True by done.
  - destruct (decide (k = i)) as [->|Hk]; [|done].
    rewrite decide_False; [done|]. intros Hr. apply Hne. by rewrite Hr.
Qed.

Lemma report_rows_of_cell (results : list LogResult) (ks : list Z) (i r : Z) :
  NoDup ks ->
  filter (fun x => row_key x = Some (i, r))
         (report_rows (group_by_instance results) ks)
  = if decide (i ∈ ks)
    then map row_of (filter (fun y => instance y = i /\ repeat y = r) results)
    else [].
Proof.
  induction 1 as [|k ks Hk Hnd IH].
  - by rewrite decide_False by apply not_elem_of_nil.
  - rewrite report_rows_cons, filter_app, IH, group_lookup, instance_rows_of_cell.
    destruct (decide (k = i)) as [->|Hne].
    + rewrite (decide_False (P := i ∈ ks)) by done.
      rewrite decide_True by by left.
      rewrite app_nil_r, sorted_same_repeat. unfold of_instance.
      rewrite list_filter_filter.
      rewrite (list_filter_iff _ (fun y => instance y = i /\ repeat y = r))
        by (intros y; tauto).
      apply map_ext_in. intros y Hy.
      apply list_elem_of_In, list_elem_of_filter in Hy as [[Hi _] _].
      unfold row_of. by rewrite Hi.
    + destruct (decide (i ∈ ks)) as [Hin|Hnin].
      * by rewrite decide_True by by right.
      * rewrite decide_False; [done|]. intros [?|?]%elem_of_cons; congruence.
Qed.

End TieFacts.

(** X12. Records of the same instance and repeat are all kept, and their
    lines stand in the report in the order in which the records were
    parsed: the lines of the report that show the cell [(i, r)] are the
    lines of the records of that cell, in the order of the results. *)
Theorem ties_keep_order (results : list Aggregator.LogResult) (i r : Z) :
  filter (fun x => Samples.row_key x = Some (i, r)) (Aggregator.report results)
  = map Samples.row_of
        (filter (fun y => Aggregator.instance y = i /\ Aggregator.repeat y = r) results).
Proof.
  assert (filter (fun x => Samples.row_key x = Some (i, r)) (Aggregator.report results)
          = filter (fun x => Samples.row_key x = Some (i, r))
                   (Samples.rows (Aggregator.report results))) as ->.
  { unfold Samples.rows. rewrite list_filter_filter. apply list_filter_iff.
    intros x. split; [|tauto]. intros Hx. split; [done|]. rewrite Hx. by eexists. }
  rewrite rows_report, report_rows_of_cell by apply NoDup_sorted_keys.
  case_decide as Hin; [done|].
  rewrite (filter_none _ results); [done|].
  intros y Hy [Hi _]. apply Hin, elem_of_sorted_keys, group_is_Some.
  by exists y.
Qed.

(** ** The Batch Runner: what one run leaves behind *)

Section RunFacts.
Import Runner.

Lemma string_app_inv_head (p a b : string) : p +:+ a = p +:+ b -> a = b.
Proof.
  induction p as [|x p IH]; [done|]. rewrite !app_cons. intros [= H]. by apply IH.
Qed.

(** The name of a log determines its cell. *)
Lemma log_name_inj (r i r' i' : Z) :
  0 <= r -> 0 <= i -> 0 <= r' -> 0 <= i' ->
  log_name r i = log_name r' i' -> r = r' /\ i = i'.
Proof.
  intros Hr Hi Hr' Hi' Heq.
  pose proof (filename_roundtrip r i Hr Hi) as H.
  rewrite Heq, filename_roundtrip in H by done.
  injection H as Hsr Hsi.
  pose proof (int_str r Hr) as Hir. pose proof (int_str i Hi) as Hii.
  rewrite <- Hsr, int_str in Hir by done. rewrite <- Hsi, int_str in Hii by done.
  split; congruence.
Qed.

Lemma log_file_of_inj (r i r' i' : Z) :
  0 <= r -> 0 <= i -> 0 <= r' -> 0 <= i' ->
  log_file_of r i = log_file_of r' i' -> r = r' /\ i = i'.
Proof.
  intros Hr Hi Hr' Hi' Heq. apply log_name_inj; try done.
  by apply (string_app_inv_head "/mnt/public/quanlu/").
Qed.

Lemma NoDup_range (a b : Z) : NoDup (range a b).
Proof.
  unfold range. apply (NoDup_fmap_2_strong (fun k => a + Z.of_nat k));
    [|apply NoDup_seq].
  intros x y _ _. lia.
Qed.

Lemma NoDup_cells_of (repeats instances : list Z) :
  NoDup repeats -> NoDup instances -> NoDup (cells_of repeats instances).
Proof.
  intros Hr Hi. induction Hr as [|r repeats Hnin Hr IH]; [constructor|].
  unfold cells_of. cbn [flat_map]. apply NoDup_app. split; [|split; [|exact IH]].
  - apply (NoDup_fmap_2_strong (pair r)); [|done]. by intros x y _ _ [= ->].
  - intros [r0 i0] (i1 & [= -> ->] & _)%list_elem_of_fmap Hin.
    by apply elem_of_cells_of in Hin as [? _].
Qed.



End RunFacts.

(** X13. No log is written twice in one run: when the instance range has
    no index twice and no negative index, the log files of the children
    that are run are pairwise distinct, whatever the children return. *)
Theorem logs_not_overwritten (executable : string)
    (child : list Runner.event -> Runner.Invocation -> Z)
    (outer_repeats : Z) (instance_range : list Z) :
  NoDup instance_range -> Forall (fun i => 0 <= i) instance_range ->
  NoDup (map (fun x => Runner.log_file x.1)
             (Runner.spawns
                (Runner.trace executable child outer_repeats instance_range))).
Proof.
  intros Hnd Hnonneg.
  destruct (spawns_prefix executable child outer_repeats instance_range)
    as [rest Hpre].
  apply (f_equal (map Runner.log_file)) in Hpre.
  rewrite map_app, !map_map in Hpre. cbn [Runner.invocation Runner.log_file] in Hpre.
  assert (NoDup (map (fun c => Runner.log_file_of c.1 c.2)
                     (Runner.grid outer_repeats instance_range))) as Hgrid.
  { apply (NoDup_fmap_2_strong (fun c => Runner.log_file_of c.1 c.2)).
    - intros [r i] [r' i'] [Hr Hi]%elem_of_cells_of [Hr' Hi']%elem_of_cells_of Heq.
      apply elem_of_range in Hr, Hr'. rewrite Forall_forall in Hnonneg.
      cbn [fst snd] in Heq.
      apply log_file_of_inj in Heq as [-> ->]; [done|try lia..]; by apply Hnonneg.
    - apply NoDup_cells_of; [apply NoDup_range|done]. }
  rewrite Hpre in Hgrid. by apply NoDup_app in Hgrid as [? _].
Qed.

Lemma logs_not_overwritten_witness :
  NoDup (map (fun x => Runner.log_file x.1)
             (Runner.spawns (Runner.main "python3" Samples.failing_child).1)).
Proof.
  apply (logs_not_overwritten "python3" Samples.failing_child 4 (Runner.range 10 19)).
  - apply NoDup_range.
  - apply Forall_forall. intros i Hi%elem_of_range. lia.
Defined.



(** X15. An empty grid: with no repeat to make or no instance to evaluate
    no child is run and the exit code is 0; with no repeat to make nothing
    is printed either. *)
Theorem empty_grid_runs_nothing (executable : string)
    (child : list Runner.event -> Runner.Invocation -> Z)
    (outer_repeats : Z) (instance_range : list Z) :
  outer_repeats <= 0 \/ instance_range = [] ->
  Runner.spawns (Runner.trace executable child outer_repeats instance_range) = []
  /\ Runner.exit_code executable child outer_repeats instance_range = 0
  /\ (outer_repeats <= 0 ->
      Runner.trace executable child outer_repeats instance_range = []).
Proof.
  intros Hempty.
  assert (Runner.grid outer_repeats instance_range = []) as Hgrid.
  { unfold Runner.grid. destruct Hempty as [Hle| ->].
    - unfold Runner.range. by replace (Z.to_nat (outer_repeats - 0)) with 0%nat by lia.
    - unfold Runner.cells_of. induction (Runner.range 0 outer_repeats); [done|].
      done. }
  pose proof (run_grid_Ran executable child outer_repeats instance_range) as H.
  rewrite Hgrid in H. unfold Runner.exit_code.
  destruct (Runner.run_grid _ _ _ _).2 as [c'|];
    inversion H as [sp Hs Hm Hz|c0 done rest r' i' tr0 sp Hc Hcells Htr Hs Hm Hz].
  - by destruct done.
  - destruct sp; [|done]. split; [done|]. split; [done|].
    intros Hle. unfold Runner.trace, Runner.run_grid, Runner.range.
    by replace (Z.to_nat (outer_repeats - 0)) with 0%nat by lia.
Qed.

Lemma empty_grid_runs_nothing_witness :
  Runner.exit_code "python3" Samples.failing_child 4 [] = 0
  /\ Runner.trace "python3" Samples.failing_child 0 (Runner.range 10 19) = [].
Proof.
  split.
  - apply (empty_grid_runs_nothing "python3" Samples.failing_child 4 []). by right.
  - apply (empty_grid_runs_nothing "python3" Samples.failing_child 0 (Runner.range 10 19));
      [left|]; lia.
Defined.

(** ** The Batch Runner: what is printed before a child *)

Section AnnounceFacts.
Import Runner Samples.

Variable executable : string.
Variable child : list event -> Invocation -> Z.
Variable outer_repeats : Z.
Variable instance_range : list Z.

Lemma app_two {A} (l : list A) (a b : A) : (l ++ [a; b] = (l ++ [a]) ++ [b])%list.
Proof. by rewrite <- app_assoc. Qed.

Lemma announced_nil : announced child [].
Proof. intros n inv rc Hn. by rewrite lookup_nil in Hn. Qed.

(** Events already in the trace keep their place and their history. *)
Lemma announced_old (tr new : list event) (n : nat) (inv : Invocation) (rc : Z) :
  announced child tr -> (n < length tr)%nat ->
  (tr ++ new)%list !! n = Some (Spawn inv rc) ->
  exists m : nat,
    n = S (S m)
    /\ (tr ++ new)%list !! m = Some (Print (running_msg inv))
    /\ (tr ++ new)%list !! S m = Some (Print (logging_msg inv))
    /\ rc = child (take n (tr ++ new)%list) inv.
Proof.
  intros Htr Hlt Hn. rewrite lookup_app_l in Hn by done.
  destruct (Htr n inv rc Hn) as (m & -> & Hm & Hm' & Hrc).
  exists m. rewrite !lookup_app_l by lia. rewrite take_app_le by lia. done.
Qed.

Lemma announced_print (tr : list event) (s : string) :
  announced child tr -> announced child (tr ++ [Print s]).
Proof.
  intros Htr n inv rc Hn.
  destruct (decide (n < length tr)%nat) as [Hlt|Hge]; [by eapply announced_old|].
  rewrite lookup_app_r in Hn by lia.
  by destruct (n - length tr)%nat as [|[|k]].
Qed.

Lemma announced_cell (tr : list event) (inv : Invocation) :
  announced child tr ->
  announced child
    ((tr ++ [Print (running_msg inv); Print (logging_msg inv)])
       ++ [Spawn inv (child (tr ++ [Print (running_msg inv); Print (logging_msg inv)]) inv)]).
Proof.
  intros Htr n inv' rc Hn. rewrite <- app_assoc in Hn |- *.
  destruct (decide (n < length tr)%nat) as [Hlt|Hge]; [by eapply announced_old|].
  rewrite lookup_app_r in Hn by lia.
  destruct (n - length tr)%nat as [|[|[|k]]] eqn:E; try done.
  injection Hn as <- <-. exists (length tr).
  assert (n = S (S (length tr))) as -> by lia.
  split; [done|]. split; [|split].
  - rewrite lookup_app_r by lia. by rewrite Nat.sub_diag.
  - rewrite lookup_app_r by lia. by replace (S (length tr) - length tr)%nat with 1%nat by lia.
  - rewrite take_app_ge by lia.
    by replace (S (S (length tr)) - length tr)%nat with 2%nat by lia.
Qed.

Lemma run_cell_announced (repeat i : Z) (tr : list event) :
  announced child tr -> announced child (run_cell executable child repeat i tr).1.
Proof.
  intros Htr. unfold run_cell.
  pose proof (announced_cell tr (invocation executable repeat i) Htr) as H.
  destruct (decide (_ ≠ 0)); cbn [fst]; [|exact H].
  rewrite app_two. by do 2 apply announced_print.
Qed.

Lemma inner_loop_announced (repeat : Z) (instances : list Z) (tr : list event) :
  announced child tr ->
  announced child (inner_loop executable child repeat instances tr).1.
Proof.
  revert tr. induction instances as [|i rest IH]; intros tr Htr; [done|].
  cbn [inner_loop]. pose proof (run_cell_announced repeat i tr Htr) as H.
  destruct (run_cell _ _ _ _ _) as [tr' [c|]]; [done|]. by apply IH.
Qed.

Lemma outer_loop_announced (repeats : list Z) (tr : list event) :
  announced child tr ->
  announced child
    (outer_loop executable child outer_repeats instance_range repeats tr).1.
Proof.
  revert tr. induction repeats as [|r rest IH]; intros tr Htr; [done|].
  cbn [outer_loop]. cbv zeta.
  set (line := Print _).
  pose proof (inner_loop_announced r instance_range _
                (announced_print tr _ Htr : announced child (tr ++ [line]))) as H.
  destruct (inner_loop _ _ _ _ _) as [tr' [c|]]; [done|]. apply IH, H.
Qed.

End AnnounceFacts.

(** X16. Every child is announced: in the trace of a run each child stands
    right after the line that shows its command and the line that names
    its log file, in that order, and the return code recorded for it is
    the one the child gives after all the events before it. *)
Theorem children_announced (executable : string)
    (child : list Runner.event -> Runner.Invocation -> Z)
    (outer_repeats : Z) (instance_range : list Z)
    (n : nat) (inv : Runner.Invocation) (rc : Z) :
  let tr := Runner.trace executable child outer_repeats instance_range in
  tr !! n = Some (Runner.Spawn inv rc) ->
  exists m : nat,
    n = S (S m)
    /\ tr !! m = Some (Runner.Print (Samples.running_msg inv))
    /\ tr !! S m = Some (Runner.Print (Samples.logging_msg inv))
    /\ rc = child (take n tr) inv.
Proof.
  intros tr Hn.
  pose proof (outer_loop_announced executable child outer_repeats instance_range
                (Runner.range 0 outer_repeats) [] (announced_nil child)) as H.
  destruct (H n inv rc Hn) as (m & Hm). by exists m.
Qed.

Lemma children_announced_witness :
  Runner.trace "python3" Samples.failing_child 4 (Runner.range 10 19) !! 2%nat
  = Some (Runner.Print
            (Samples.logging_msg (Runner.invocation "python3" 0 10))).
Proof.
  assert (Runner.trace "python3" Samples.failing_child 4 (Runner.range 10 19) !! 3%nat
          = Some (Runner.Spawn (Runner.invocation "python3" 0 10) 0)) as Hn
    by (vm_compute; reflexivity).
  destruct (children_announced "python3" Samples.failing_child 4 (Runner.range 10 19)
              3%nat (Runner.invocation "python3" 0 10) 0 Hn)
    as (m & Hm & _ & Hlog & _).
  injection Hm as <-. exact Hlog.
Defined.

(** ** The Result Aggregator: names the pattern does not fit *)

Section SkippedFacts.
Import Re Aggregator Samples.

(** A name the file-name pattern matches holds a digit. *)
Lemma filename_match_digit (n : string) (m : list string) :
  search filename_re n = Some m -> all_chars not_digit n = false.
Proof.
  intros H. destruct (filename_groups n m H) as (a & b & -> & Ha & Hne & _).
  destruct (filename_match_inv n _ H) as (pre & a' & b' & post & [= <- <-] & ->).
  rewrite !all_chars_app. destruct a as [|a0 a]; [done|].
  cbn [all_chars] in Ha. apply andb_true_iff in Ha as [Ha0 _].
  assert (all_chars not_digit (String a0 a) = false) as ->.
  { cbn [all_chars]. unfold not_digit at 1. by rewrite Ha0. }
  cbn [andb]. by rewrite !andb_false_r.
Qed.

End SkippedFacts.

(** X17. A file the glob selects may fit no cell: a name
    [behavior_log_{s}.log] in which [s] holds no digit is selected, the file
    is opened all the same, and then it is skipped without a word when it
    can be read, and reported with the error when it cannot. *)
Theorem selected_but_skipped (fs : Aggregator.FileSystem) (dir s : string) :
  all_chars Samples.not_digit s = true ->
  let p := {| Aggregator.parent := dir;
              Aggregator.name := "behavior_log_" +:+ s +:+ ".log" |} in
  Aggregator.glob_match (Aggregator.name p) = true
  /\ Aggregator.parse_log_file fs p
     = match Aggregator.open_read fs p with
       | Ok _ => (None, [])
       | Raise e =>
           (None, ["Error parsing " +:+ Aggregator.path_str p +:+ ": " +:+ exn_str e])
       end.
Proof.
  intros Hs p. split.
  - unfold Aggregator.glob_match. cbn [Aggregator.name p].
    rewrite lit_prefix_app. apply ends_with_app.
  - unfold Aggregator.parse_log_file, Aggregator.parse_log_file_try.
    destruct (Aggregator.open_read fs p) as [content|e];
      rewrite ?bind_Ok, ?bind_Raise; [|done].
    destruct (Re.search Aggregator.filename_re (Aggregator.name p)) as [m|] eqn:E;
      [|done].
    apply filename_match_digit in E. cbn [Aggregator.name p] in E.
    rewrite !all_chars_app, Hs in E. done.
Qed.

Lemma selected_but_skipped_witness :
  Aggregator.parse_log_file Samples.sample_fs
    {| Aggregator.parent := Aggregator.log_dir;
       Aggregator.name := "behavior_log_final.log" |}
  = match Aggregator.open_read Samples.sample_fs
            {| Aggregator.parent := Aggregator.log_dir;
               Aggregator.name := "behavior_log_final.log" |} with
    | Ok _ => (None, [])
    | Raise e =>
        (None, ["Error parsing /mnt/public/quanlu/behavior_log_final.log: "
                +:+ exn_str e])
    end.
Proof.
  exact (proj2 (selected_but_skipped Samples.sample_fs Aggregator.log_dir "final"
                  eq_refl)).
Defined.
